(** * crypto-apis: the currency algebra and the key normaliser

    A shallow embedding of [utils.py] (alias table, [normalized_key],
    [normalize_keys], [inverted], [Balance]), of [exchanges/utils.py]
    ([Ticker]), of the prices, costs and order views of
    [exchanges/spec.py] ([MarketAPI], [ExchangeAPI]) and of the order
    adapter of [YobitAPI] in [exchanges/__init__.py], followed by the
    properties of the specification that concern them and by further
    properties of the code.

    Conventions of the embedding.
    - A Python [dict] is an association list in insertion order; a list
      that stands for a dict has pairwise distinct keys ([NoDup] of its
      keys).  [Dict.setitem] is [d[k] = v]: an existing key keeps its place.
    - Keys are [str]; [upper] is [str.upper] on ASCII text.
    - Amounts and prices are Python floats, that is IEEE-754 binary64
      numbers, carried by Rocq's primitive [float] with the same
      arithmetic.  An integer literal of the source ([0], [1]) or of a
      payload stands for the float Python coerces it to in mixed
      arithmetic and identifies with it under [==].
    - A raised exception is the [Raise] branch of [except].
    - [inplace=True] changes which object is returned, not what it holds;
      the embedding of the normaliser returns the contents. *)

From Stdlib Require Import String Ascii List Bool Arith Lia Floats.
Import ListNotations.
Open Scope string_scope.
Open Scope list_scope.

(** ** Exceptions *)

Inductive exn : Type :=
| ValueError (message : string)
| KeyError (key : string)
| NotImplementedError.

Inductive except (A : Type) : Type :=
| Ok (a : A)
| Raise (e : exn).
Arguments Ok {A} a.
Arguments Raise {A} e.

Definition bind {A B} (m : except A) (f : A -> except B) : except B :=
  match m with
  | Ok a => f a
  | Raise e => Raise e
  end.

Notation "x <- m ;; k" := (bind m (fun x => k))
  (at level 61, m at next level, right associativity).

(** [[f(x) for x in l]] where [f] may raise: the first failure wins. *)
Fixpoint traverse {A B} (f : A -> except B) (l : list A) : except (list B) :=
  match l with
  | [] => Ok []
  | x :: l' => y <- f x ;; ys <- traverse f l' ;; Ok (y :: ys)
  end.

(** ** Python dicts *)

Module Dict.

Definition t (V : Type) : Type := list (string * V).

Definition keys {V} (d : t V) : list string := map fst d.

Definition values {V} (d : t V) : list V := map snd d.

(** [d.get(k)] *)
Fixpoint get {V} (k : string) (d : t V) : option V :=
  match d with
  | [] => None
  | (k', v) :: d' => if k' =? k then Some v else get k d'
  end.

(** [d.get(k, default)] *)
Definition get_or {V} (k : string) (default : V) (d : t V) : V :=
  match get k d with
  | Some v => v
  | None => default
  end.

(** [k in d] *)
Definition contains {V} (k : string) (d : t V) : bool :=
  match get k d with
  | Some _ => true
  | None => false
  end.

(** [d[k] = v] *)
Fixpoint setitem {V} (k : string) (v : V) (d : t V) : t V :=
  match d with
  | [] => [(k, v)]
  | (k', v') :: d' =>
      if k' =? k then (k, v) :: d' else (k', v') :: setitem k v d'
  end.

(** [d[a][b]] read as an option: the edge [a -> b] of a two-level dict. *)
Definition get2 {V} (a b : string) (d : t (t V)) : option V :=
  match get a d with
  | Some row => get b row
  | None => None
  end.

(** The representation invariant of a dict, and of a dict of dicts. *)
Definition wf {V} (d : t V) : Prop := NoDup (keys d).

Definition wf2 {V} (d : t (t V)) : Prop :=
  wf d /\ Forall (fun row => wf row) (values d).

End Dict.

(** ** utils.py *)

Definition upper_ascii (c : ascii) : ascii :=
  let n := nat_of_ascii c in
  if ((97 <=? n) && (n <=? 122))%nat then ascii_of_nat (n - 32) else c.

(** [str.upper] *)
Fixpoint upper (s : string) : string :=
  match s with
  | EmptyString => EmptyString
  | String c s' => String (upper_ascii c) (upper s')
  end.

Definition ALIASES : list (list string * string) :=
  [ (["BCC"; "BCH"; "Bitcoin Cash (BCH)"], "BCH");
    (["DASH"; "DSH"; "Dash (DASH)"], "DASH");
    (["Bitcoin (BTC)"; "BTC"], "BTC");
    (["Ethereum (ETH)"; "ETH"], "ETH");
    (["Zcash (ZEC)"; "ZEC"], "ZEC");
    (["Monero (XMR)"; "XMR"], "XMR");
    (["Litecoin (LTC)"; "LTC"], "LTC");
    (["Ether Classic (ETC)"; "ETC"], "ETC");
    (["Namecoin (NMC)"; "NMC"], "NMC");
    (["Peercoin (PPC)"; "PPC"], "PPC");
    (["Ripple (XRP)"; "XRP"], "XRP");
    (["Dogecoin (DOGE)"; "DOGE"], "DOGE");
    (["RUR"; "RUB"], "RUB");
    (["Tether (USDT)"; "USDT"], "USDT");
    (["NEM (XEM)"; "XEM"], "XEM");
    (["Augur (REP)"; "REP"], "REP") ].

(** [{src: trg for key, trg in ALIASES.items() for src in key}] *)
Definition _ALIASES_FLATTENED : Dict.t string :=
  fold_left
    (fun acc '(key, trg) =>
       fold_left (fun acc src => Dict.setitem src trg acc) key acc)
    ALIASES [].

(** [x or y] where [x] is [None] or a [str] and [y] a [str]: [None] and the
    empty string are falsy. *)
Definition or_else (x : option string) (y : string) : string :=
  match x with
  | Some s => if s =? "" then y else s
  | None => y
  end.

Definition normalized_key (k : string) : string :=
  let u := upper k in
  or_else (Dict.get k _ALIASES_FLATTENED)
          (or_else (Dict.get u _ALIASES_FLATTENED) u).

Definition quote : string := String (ascii_of_nat 34) EmptyString.

(** The message of the [ValueError] raised on a collision. *)
Definition duplicate_message (key : string) : string :=
  String.append "Multiple values for normalized key "
    (String.append quote
       (String.append key
          (String.append quote
             " are found, but no aggregation is provided"))).

(** The loop of the branch [agg is None]. *)
Fixpoint normalize_strict {V} (items : list (string * V)) (result : Dict.t V)
  : except (Dict.t V) :=
  match items with
  | [] => Ok result
  | (key, value) :: rest =>
      let key := normalized_key key in
      if Dict.contains key result
      then Raise (ValueError (duplicate_message key))
      else normalize_strict rest (Dict.setitem key value result)
  end.

(** The first loop of the other branch: [result = defaultdict(list)] and
    [result[normalized_key(key)].append(value)]. *)
Definition normalize_collect {V} (d : Dict.t V) : Dict.t (list V) :=
  fold_left
    (fun result '(key, value) =>
       let key := normalized_key key in
       Dict.setitem key (Dict.get_or key [] result ++ [value]) result)
    d [].

(** The second loop, [result[key] = agg(values)], rewrites every value of
    [result] and leaves its keys in place. *)
Definition _normalize_keys_impl {V} (agg : option (list V -> V))
    (d : Dict.t V) : except (Dict.t V) :=
  match agg with
  | None => normalize_strict d []
  | Some agg =>
      Ok (map (fun '(key, values) => (key, agg values)) (normalize_collect d))
  end.

(** [normalize_keys(d, agg=agg)], that is [recursive=False]. *)
Definition normalize_keys {V} (agg : option (list V -> V)) (d : Dict.t V)
  : except (Dict.t V) :=
  _normalize_keys_impl agg d.

(** With [recursive=True] the one aggregator of the Python call is applied
    to lists of entries at the inner level and to lists of rows at the
    outer level; in the typed embedding these are its two instances. *)
Record aggregator (V : Type) : Type := {
  agg_inner : list V -> V;
  agg_outer : list (Dict.t V) -> Dict.t V
}.
Arguments agg_inner {V} a.
Arguments agg_outer {V} a.

(** [normalize_keys(d, agg=agg, recursive=True)] on a dict [d]: every entry
    is normalised by the non-recursive call (so the entries are dicts and
    exactly two levels are normalised), then the keys of [d] itself. *)
Definition normalize_keys_recursive {V} (agg : option (aggregator V))
    (d : Dict.t (Dict.t V)) : except (Dict.t (Dict.t V)) :=
  d' <- traverse
          (fun '(key, entry) =>
             entry' <- normalize_keys (option_map agg_inner agg) entry ;;
             Ok (key, entry'))
          d ;;
  _normalize_keys_impl (option_map agg_outer agg) d'.

(** [inverted(d, inverter)]: [result = defaultdict(dict)] and
    [result[to][from_] = inverter(value)]. *)
Definition inverted {A B} (d : Dict.t (Dict.t A)) (inverter : A -> B)
  : Dict.t (Dict.t B) :=
  fold_left
    (fun result '(from_, entry) =>
       fold_left
         (fun result '(to, value) =>
            Dict.setitem to
              (Dict.setitem from_ (inverter value) (Dict.get_or to [] result))
              result)
         entry result)
    d [].

(** ** Python floats *)

(** [bool(x)] *)
Definition truthy (x : float) : bool := negb (x =? 0)%float.

(** [price and 1 / price] *)
Definition and_reciprocal (price : float) : float :=
  if truthy price then (1 / price)%float else price.

(** [sum(values)] *)
Definition py_sum (values : list float) : float :=
  fold_left (fun acc x => (acc + x)%float) values 0%float.

(** A real number: neither an infinity nor a NaN. *)
Definition finite (x : float) : bool :=
  match Prim2SF x with
  | S754_zero _ | S754_finite _ _ _ => true
  | S754_infinity _ | S754_nan => false
  end.

(** ** Membership and comprehensions *)

(** [k in keys] for a tuple or a set of strings. *)
Definition py_in (k : string) (keys : list string) : bool :=
  existsb (fun x => x =? k) keys.

(** [{k: v for k, v in items}]: the items are stored one after the other. *)
Definition dict_of_items {V} (items : list (string * V)) : Dict.t V :=
  fold_left (fun d '(k, v) => Dict.setitem k v d) items [].

(** ** collections.Counter

    [Counter] is Python's; [Balance] inherits it.  [__add__] is CPython's
    [Counter.__add__]: the sum of both counters, keeping only the strictly
    positive counts. *)

Module Counter.

Definition t : Type := Dict.t float.

(** [self[k]]: by [Counter.__missing__] an absent key reads as [0]. *)
Definition getitem (self : t) (k : string) : float := Dict.get_or k 0%float self.

Definition __add__ (self other : t) : t :=
  let result :=
    fold_left
      (fun result '(elem, count) =>
         let newcount := (count + getitem other elem)%float in
         if (0 <? newcount)%float
         then Dict.setitem elem newcount result
         else result)
      self []
  in
  fold_left
    (fun result '(elem, count) =>
       if negb (Dict.contains elem self) && (0 <? count)%float
       then Dict.setitem elem count result
       else result)
    other result.

(** [self == other] on counters: the same keys with [==] values. *)
Definition eqb (self other : t) : bool :=
  (length self =? length other)%nat
  && forallb
       (fun '(k, v) =>
          match Dict.get k other with
          | Some w => (v =? w)%float
          | None => false
          end)
       self.

End Counter.

(** ** utils.Balance *)

Module Balance.

Definition t : Type := Counter.t.

(** The right operand of [*], by the [isinstance] tests of [__mul__]. *)
Inductive operand : Type :=
| OfCounter (other : Counter.t)
| OfNumber (other : float)
| OfOther.

Definition __mul__ (self : t) (other : operand) : except t :=
  match other with
  | OfCounter other =>
      let result :=
        fold_left
          (fun result '(key, value) =>
             Dict.setitem key (value * Dict.get_or key 0 other)%float result)
          self []
      in
      Ok (fold_left
            (fun result key =>
               if Dict.contains key result
               then result
               else Dict.setitem key 0%float result)
            (Dict.keys other) result)
  | OfNumber other =>
      Ok (fold_left
            (fun result key =>
               Dict.setitem key (Dict.get_or key 0 result * other)%float result)
            (Dict.keys self) self)
  | OfOther => Raise NotImplementedError
  end.

(** [Balance(super().__add__(other))], on contents. *)
Definition __add__ (self other : t) : t := Counter.__add__ self other.

(** [other * self]: [self * other], its [NotImplementedError] re-raised. *)
Definition __rmul__ (self : t) (other : operand) : except t :=
  __mul__ self other.

(** [sum(self.values())] *)
Definition sum (self : t) : float := py_sum (Dict.values self).

(** [Balance({k: v for k, v in self.items() if k in keys})] *)
Definition project (self : t) (keys : list string) : t :=
  dict_of_items (filter (fun '(k, v) => py_in k keys) self).

(** [Balance({k: v for k, v in self.items() if k not in keys})] *)
Definition excluding (self : t) (keys : list string) : t :=
  dict_of_items (filter (fun '(k, v) => negb (py_in k keys)) self).

(** [Balance(normalize_keys(self, agg=agg))]; with [inplace=True] the same
    contents, in [self]. *)
Definition normalize (agg : option (list float -> float)) (self : t)
  : except t :=
  normalize_keys agg self.

End Balance.

(** ** The object store

    [Balance.__add__] builds two objects, the [Counter] returned by
    [Counter.__add__] and the [Balance] copied from it.  Objects live in a
    store, an address is an index into it, and building an object appends
    to the store. *)

Module Heap.

Definition address : Type := nat.

Definition t : Type := list Counter.t.

Definition load (a : address) (h : t) : option Counter.t := nth_error h a.

Definition new (contents : Counter.t) (h : t) : address * t :=
  (length h, h ++ [contents]).

(** [self + other] for two [Balance] objects of the store. *)
Definition Balance_add (self other : address) (h : t) : option (address * t) :=
  match load self h, load other h with
  | Some u, Some v =>
      let (counter, h1) := new (Counter.__add__ u v) h in
      match load counter h1 with
      | Some c => Some (new c h1)
      | None => None
      end
  | _, _ => None
  end.

End Heap.

(** ** exchanges/utils.Ticker *)

Module Ticker.

Definition t : Type := Dict.t (Dict.t float).

(** [normalize_keys(self, inplace=True, recursive=True)] *)
Definition _normalize_keys (self : t) : except t :=
  normalize_keys_recursive None self.

(** [for key in self: self[key][key] = 1.0] *)
Definition _add_self_prices (self : t) : t :=
  fold_left
    (fun self key =>
       match Dict.get key self with
       | Some row => Dict.setitem key (Dict.setitem key 1%float row) self
       | None => self
       end)
    (Dict.keys self) self.

Definition __init__ (raw : t) : except t :=
  self <- _normalize_keys raw ;;
  Ok (_add_self_prices self).

(** [Balance(self[target_currency])] *)
Definition prices (self : t) (target_currency : string) : except Balance.t :=
  match Dict.get target_currency self with
  | Some row => Ok row
  | None => Raise (KeyError target_currency)
  end.

(** [Ticker(inverted(self, lambda price: price and 1 / price))] *)
Definition inverted (self : t) : except t :=
  __init__ (inverted self and_reciprocal).

(** [if fee < 1: fee += 1] *)
Definition effective_fee (fee : float) : float :=
  if (fee <? 1)%float then (fee + 1)%float else fee.

(** [result = Ticker()] is the empty graph; the rows are stored in it
    with [result[outer_key] = new_entry], not through the constructor. *)
Definition increased_by_fee (self : t) (fee : float) : t :=
  let fee := effective_fee fee in
  fold_left
    (fun result '(outer_key, entry) =>
       let new_entry :=
         fold_left
           (fun new_entry '(inner_key, value) =>
              if inner_key =? outer_key
              then Dict.setitem inner_key value new_entry
              else Dict.setitem inner_key (value * fee)%float new_entry)
           entry []
       in
       Dict.setitem outer_key new_entry result)
    self [].

(** [accepted_keys = set(accepted_keys)], then the constructor on the
    nested comprehension. *)
Definition projected (self : t) (accepted_keys : list string) : except t :=
  __init__
    (dict_of_items
       (map
          (fun '(currency, prices) =>
             (currency,
              dict_of_items
                (filter (fun '(currency, price) => py_in currency accepted_keys)
                   prices)))
          (filter (fun '(currency, prices) => py_in currency accepted_keys)
             self))).

End Ticker.

(** ** exchanges/spec.MarketAPI: prices and costs

    Every operation takes the ticker it works on; the branch that is
    modelled is the one with the ticker given ([ticker is not None]), in
    which nothing is awaited. *)

Module MarketAPI.

(** [ticker.prices(from_currency)] *)
Definition buy_prices (from_currency : string) (ticker : Ticker.t)
  : except Balance.t :=
  Ticker.prices ticker from_currency.

(** [ticker.inverted().prices(to_currency)] *)
Definition sell_prices (to_currency : string) (ticker : Ticker.t)
  : except Balance.t :=
  inverted <- Ticker.inverted ticker ;;
  Ticker.prices inverted to_currency.

(** [balance * buy_prices] *)
Definition buy_cost (balance : Balance.t) (target_currency : string)
    (ticker : Ticker.t) : except Balance.t :=
  buy_prices <- buy_prices target_currency ticker ;;
  Balance.__mul__ balance (Balance.OfCounter buy_prices).

(** [balance * sell_prices] *)
Definition sell_cost (balance : Balance.t) (target_currency : string)
    (ticker : Ticker.t) : except Balance.t :=
  sell_prices <- sell_prices target_currency ticker ;;
  Balance.__mul__ balance (Balance.OfCounter sell_prices).

End MarketAPI.

(** ** exchanges/spec.ExchangeAPI: order views *)

Module ExchangeAPI.

(** An order as the adapters build it; [order_id] is opaque. *)
Record order : Type := {
  order_id : string;
  amount : float;
  price : float
}.

Definition orders : Type := Dict.t (Dict.t (list order)).

(** [dict(order_id=order['order_id'],
         amount=order['amount'] * order['price'],
         price=order['price'] and 1 / order['price'])] *)
Definition invert_order (o : order) : order :=
  {| order_id := order_id o;
     amount := (amount o * price o)%float;
     price := and_reciprocal (price o) |}.

(** The local [inverted_orders] of [open_buy_orders]. *)
Definition inverted_orders (open_orders : orders) : orders :=
  inverted open_orders (map invert_order).

(** [inverted_orders.get(to_currency, {})] *)
Definition open_buy_orders (to_currency : string) (open_orders : orders)
  : Dict.t (list order) :=
  Dict.get_or to_currency [] (inverted_orders open_orders).

(** What [open_orders] returns for the raw data of the adapter:
    [normalize_keys(simplify_defaultdict(raw_data), recursive=True)]. *)
Definition open_orders (raw_data : orders) : except orders :=
  normalize_keys_recursive None raw_data.

(** [open_orders.get(from_currency, {})] *)
Definition open_sell_orders (from_currency : string) (open_orders : orders)
  : Dict.t (list order) :=
  Dict.get_or from_currency [] open_orders.

End ExchangeAPI.

(** ** exchanges.YobitAPI: the open orders of the adapter

    [_get_open_orders_data] awaits the signed query and then builds the
    order structure from [response['return']], a dict from order id to
    order; the embedding is that second part.  The exceptions it can raise
    are Python's own, listed in [error]. *)

Module YobitAPI.

(** An entry of [response['return']]. *)
Record active_order : Type := {
  pair : string;
  type : string;
  rate : float;
  amount : float
}.

Inductive error : Type :=
| ZeroDivisionError
| UnpackValueError.

(** [s.split(sep)] for a separator of one character. *)
Fixpoint split (sep : ascii) (s : string) : list string :=
  match s with
  | EmptyString => [EmptyString]
  | String c s' =>
      if Ascii.eqb c sep
      then EmptyString :: split sep s'
      else match split sep s' with
           | part :: parts => String c part :: parts
           | [] => [String c EmptyString]
           end
  end.

(** [x / y]: a zero divisor raises. *)
Definition truediv (x y : float) : error + float :=
  if (y =? 0)%float then inl ZeroDivisionError else inr (x / y)%float.

(** The body of the loop up to the [append]: where the order goes, and
    the order as it is stored. *)
Definition place (order_id : string) (o : active_order)
  : error + (string * string * ExchangeAPI.order) :=
  match split "_" (pair o) with
  | [from_; to] =>
      if type o =? "buy"
      then inr (to, from_,
                {| ExchangeAPI.order_id := order_id;
                   ExchangeAPI.amount := amount o;
                   ExchangeAPI.price := rate o |})
      else
        match truediv 1 (rate o) with
        | inl e => inl e
        | inr price =>
            match truediv (amount o) price with
            | inl e => inl e
            | inr amount =>
                inr (from_, to,
                     {| ExchangeAPI.order_id := order_id;
                        ExchangeAPI.amount := amount;
                        ExchangeAPI.price := price |})
            end
        end
  | _ => inl UnpackValueError
  end.

(** [result[from_][to].append(order)] on
    [defaultdict(lambda: defaultdict(list))]. *)
Definition append_order (from_ to : string) (o : ExchangeAPI.order)
    (result : ExchangeAPI.orders) : ExchangeAPI.orders :=
  let row := Dict.get_or from_ [] result in
  Dict.setitem from_ (Dict.setitem to (Dict.get_or to [] row ++ [o]) row) result.

Fixpoint orders_loop (items : list (string * active_order))
    (result : ExchangeAPI.orders) : error + ExchangeAPI.orders :=
  match items with
  | [] => inr result
  | (order_id, o) :: rest =>
      match place order_id o with
      | inl e => inl e
      | inr (from_, to, stored) =>
          orders_loop rest (append_order from_ to stored result)
      end
  end.

Definition _get_open_orders_data (response_return : Dict.t active_order)
  : error + ExchangeAPI.orders :=
  orders_loop response_return [].

End YobitAPI.

(** The orders of a response that are stored under [from_ -> to], in the
    order of the response. *)
Fixpoint stored_under (from_ to : string)
    (items : list (string * YobitAPI.active_order)) : list ExchangeAPI.order :=
  match items with
  | [] => []
  | (order_id, o) :: rest =>
      match YobitAPI.place order_id o with
      | inr (f, t, stored) =>
          if (f =? from_) && (t =? to)
          then stored :: stored_under from_ to rest
          else stored_under from_ to rest
      | inl _ => stored_under from_ to rest
      end
  end.

(** ** Notions used in the statements *)

(** A key that the normaliser leaves alone. *)
Definition canonical (k : string) : Prop := normalized_key k = k.

(** Every key replaced by its canonical form, places and values kept. *)
Definition rekey {V} (d : Dict.t V) : Dict.t V :=
  map (fun kv => (normalized_key (fst kv), snd kv)) d.

(** The raw values of [d] whose key canonicalises to [key], in the order
    of [d.items()]. *)
Definition raw_values {V} (key : string) (d : Dict.t V) : list V :=
  Dict.values (filter (fun kv => normalized_key (fst kv) =? key) d).

(** A dict as the normaliser leaves it: distinct, canonical keys. *)
Definition row_normal {V} (row : Dict.t V) : Prop :=
  Dict.wf row /\ Forall canonical (Dict.keys row).

(** The same on both levels of a two-level dict. *)
Definition normal2 {V} (d : Dict.t (Dict.t V)) : Prop :=
  row_normal d /\ Forall row_normal (Dict.values d).

(** A Price Graph that a call of the constructor returned. *)
Definition constructed (g : Ticker.t) : Prop :=
  exists raw, Ticker.__init__ raw = Ok g.

(** * Properties *)

(** Closed statements about concrete inputs are settled by running the
    code: one conjunct after the other, so that a value computed in one
    is known in the next. *)
Ltac by_evaluation :=
  repeat match goal with
         | |- _ /\ _ => split; [vm_compute; reflexivity|]
         end;
  vm_compute; reflexivity.

(** ** Dicts *)

Section DictFacts.

Context {V : Type}.
Implicit Types (d : Dict.t V) (k : string) (v : V).

Lemma get_In_keys d k v : Dict.get k d = Some v -> In k (Dict.keys d).
Proof.
  induction d as [|[k' v'] d IH]; simpl; [discriminate|].
  destruct (String.eqb_spec k' k); [left; assumption | right; auto].
Qed.

Lemma get_None_iff d k : Dict.get k d = None <-> ~ In k (Dict.keys d).
Proof.
  induction d as [|[k' v'] d IH]; simpl; [tauto|].
  destruct (String.eqb_spec k' k); [|tauto].
  split; [discriminate | intros H; exfalso; apply H; left; assumption].
Qed.

Lemma In_keys_get d k : In k (Dict.keys d) -> exists v, Dict.get k d = Some v.
Proof.
  intros H. destruct (Dict.get k d) eqn:E; [eauto|].
  apply get_None_iff in E. contradiction.
Qed.

Lemma contains_true_iff d k : Dict.contains k d = true <-> In k (Dict.keys d).
Proof.
  unfold Dict.contains. split.
  - destruct (Dict.get k d) eqn:E; [intros _; eapply get_In_keys; eauto | discriminate].
  - intros H. apply In_keys_get in H as [v ->]. reflexivity.
Qed.

Lemma contains_false_iff d k : Dict.contains k d = false <-> ~ In k (Dict.keys d).
Proof.
  rewrite <- contains_true_iff. destruct (Dict.contains k d); split; congruence.
Qed.

Lemma get_In d k v : Dict.get k d = Some v -> In (k, v) d.
Proof.
  induction d as [|[k' v'] d IH]; simpl; [discriminate|].
  destruct (String.eqb_spec k' k); [|right; auto].
  intros [= ->]. left. congruence.
Qed.

Lemma In_get d k v : Dict.wf d -> In (k, v) d -> Dict.get k d = Some v.
Proof.
  unfold Dict.wf. induction d as [|[k' v'] d IH]; simpl; [tauto|].
  intros Hnd [[= -> ->]|Hin].
  - rewrite String.eqb_refl. reflexivity.
  - inversion Hnd as [|? ? Hnotin Hnd']; subst.
    destruct (String.eqb_spec k' k) as [->|_]; [|auto].
    exfalso. apply Hnotin. apply (in_map fst) in Hin. exact Hin.
Qed.

Lemma get_setitem_same d k v : Dict.get k (Dict.setitem k v d) = Some v.
Proof.
  induction d as [|[k' v'] d IH]; simpl.
  - rewrite String.eqb_refl. reflexivity.
  - destruct (String.eqb_spec k' k) as [->|Hne]; simpl.
    + rewrite String.eqb_refl. reflexivity.
    + destruct (String.eqb_spec k' k); [contradiction | exact IH].
Qed.

Lemma get_setitem_other d k k' v :
  k <> k' -> Dict.get k' (Dict.setitem k v d) = Dict.get k' d.
Proof.
  intros Hne. induction d as [|[k0 v0] d IH]; simpl.
  - destruct (String.eqb_spec k k'); [contradiction | reflexivity].
  - destruct (String.eqb_spec k0 k) as [->|Hne0]; simpl.
    + destruct (String.eqb_spec k k'); [contradiction | reflexivity].
    + rewrite IH. reflexivity.
Qed.

Lemma get_setitem d k k' v :
  Dict.get k' (Dict.setitem k v d) = if k =? k' then Some v else Dict.get k' d.
Proof.
  destruct (String.eqb_spec k k') as [->|Hne];
    [apply get_setitem_same | apply get_setitem_other; assumption].
Qed.

Lemma setitem_absent d k v :
  ~ In k (Dict.keys d) -> Dict.setitem k v d = d ++ [(k, v)].
Proof.
  induction d as [|[k' v'] d IH]; simpl; [reflexivity|].
  intros H. destruct (String.eqb_spec k' k) as [->|_]; [tauto|].
  rewrite IH; tauto.
Qed.

Lemma keys_setitem_present d k v :
  In k (Dict.keys d) -> Dict.keys (Dict.setitem k v d) = Dict.keys d.
Proof.
  induction d as [|[k' v'] d IH]; simpl; [tauto|].
  destruct (String.eqb_spec k' k) as [->|Hne]; simpl; [reflexivity|].
  intros [?|H]; [contradiction|]. rewrite IH; auto.
Qed.

Lemma In_keys_setitem d k k' v :
  In k' (Dict.keys (Dict.setitem k v d)) <-> k' = k \/ In k' (Dict.keys d).
Proof.
  rewrite <- !contains_true_iff. unfold Dict.contains. rewrite get_setitem.
  destruct (String.eqb_spec k k') as [->|Hne]; [tauto|].
  split; [tauto | intros [->|?]; [contradiction | assumption]].
Qed.

Lemma In_values_setitem d k v x :
  In x (Dict.values (Dict.setitem k v d)) -> x = v \/ In x (Dict.values d).
Proof.
  induction d as [|[k' v'] d IH]; simpl.
  - intros [<-|[]]. left. reflexivity.
  - destruct (String.eqb_spec k' k) as [->|Hne]; simpl.
    + intros [<-|H]; auto.
    + intros [<-|H]; auto. apply IH in H. tauto.
Qed.

Lemma wf_setitem d k v : Dict.wf d -> Dict.wf (Dict.setitem k v d).
Proof.
  unfold Dict.wf. intros Hnd.
  destruct (in_dec string_dec k (Dict.keys d)) as [Hin|Hout].
  - rewrite keys_setitem_present; assumption.
  - rewrite setitem_absent by assumption. unfold Dict.keys.
    rewrite map_app. simpl. apply NoDup_app; [assumption | repeat constructor; simpl; tauto |].
    intros a Ha [<-|[]]. contradiction.
Qed.

Lemma wf_nil : Dict.wf (@nil (string * V)).
Proof. constructor. Qed.

Lemma wf_cons_inv k v d :
  Dict.wf ((k, v) :: d) -> ~ In k (Dict.keys d) /\ Dict.wf d.
Proof. unfold Dict.wf. simpl. intros H. inversion H; subst. tauto. Qed.

End DictFacts.

(** ** The alias table and [normalized_key] *)

Lemma upper_ascii_idempotent c : upper_ascii (upper_ascii c) = upper_ascii c.
Proof. destruct c as [[] [] [] [] [] [] [] []]; reflexivity. Qed.

Lemma upper_idempotent s : upper (upper s) = upper s.
Proof.
  induction s as [|c s IH]; simpl; [reflexivity|].
  rewrite upper_ascii_idempotent, IH. reflexivity.
Qed.

Lemma get_In_values {V} (d : Dict.t V) k v :
  Dict.get k d = Some v -> In v (Dict.values d).
Proof.
  intros H. apply get_In in H. apply (in_map snd) in H. exact H.
Qed.

(** Every target of the alias table is a non-empty string that the
    normaliser maps to itself. *)
Lemma alias_targets_fixed t :
  In t (Dict.values _ALIASES_FLATTENED) -> (t =? "") = false /\ canonical t.
Proof.
  intros Ht. vm_compute in Ht.
  repeat (destruct Ht as [<-|Ht]; [split; vm_compute; reflexivity|]).
  destruct Ht.
Qed.

Lemma or_else_alias k t y :
  Dict.get k _ALIASES_FLATTENED = Some t ->
  or_else (Some t) y = t /\ In t (Dict.values _ALIASES_FLATTENED).
Proof.
  intros E. pose proof (get_In_values _ _ _ E) as Hin.
  destruct (alias_targets_fixed t Hin) as [Hne _].
  unfold or_else. rewrite Hne. split; [reflexivity | exact Hin].
Qed.

Lemma normalized_key_cases k :
  (In (normalized_key k) (Dict.values _ALIASES_FLATTENED))
  \/ (Dict.get (upper k) _ALIASES_FLATTENED = None /\ normalized_key k = upper k).
Proof.
  unfold normalized_key.
  destruct (Dict.get k _ALIASES_FLATTENED) as [t|] eqn:E1.
  - destruct (or_else_alias _ _ (or_else (Dict.get (upper k) _ALIASES_FLATTENED) (upper k)) E1)
      as [-> Hin].
    left. exact Hin.
  - destruct (Dict.get (upper k) _ALIASES_FLATTENED) as [t|] eqn:E2.
    + destruct (or_else_alias _ _ (upper k) E2) as [Heq Hin].
      left. unfold or_else at 1. rewrite Heq. exact Hin.
    + right. split; reflexivity.
Qed.

Lemma normalized_key_canonical k : canonical (normalized_key k).
Proof.
  destruct (normalized_key_cases k) as [Hin|[Hnone ->]].
  - apply alias_targets_fixed. exact Hin.
  - unfold canonical, normalized_key.
    rewrite upper_idempotent, Hnone. reflexivity.
Qed.

Lemma rekey_canonical {V} (d : Dict.t V) :
  Forall canonical (Dict.keys d) -> rekey d = d.
Proof.
  unfold rekey. induction d as [|[k v] d IH]; simpl; [reflexivity|].
  intros H. inversion H as [|? ? Hk Hd]; subst.
  unfold canonical in Hk. rewrite Hk, IH by assumption. reflexivity.
Qed.

Lemma keys_rekey {V} (d : Dict.t V) :
  Dict.keys (rekey d) = map normalized_key (Dict.keys d).
Proof. unfold rekey, Dict.keys. rewrite !map_map. reflexivity. Qed.

Lemma values_rekey {V} (d : Dict.t V) : Dict.values (rekey d) = Dict.values d.
Proof. unfold rekey, Dict.values. rewrite map_map. reflexivity. Qed.

Lemma canonical_keys_rekey {V} (d : Dict.t V) :
  Forall canonical (Dict.keys (rekey d)).
Proof.
  rewrite keys_rekey. apply Forall_forall. intros k Hk.
  apply in_map_iff in Hk as [k0 [<- _]]. apply normalized_key_canonical.
Qed.

(** ** [_normalize_keys_impl] without an aggregator *)

Lemma NoDup_map_injective {A B} (f : A -> B) (l : list A) a b :
  NoDup (map f l) -> In a l -> In b l -> f a = f b -> a = b.
Proof.
  induction l as [|x l IH]; simpl; [tauto|].
  intros Hnd Ha Hb Hf. inversion Hnd as [|? ? Hx Hl]; subst.
  destruct Ha as [->|Ha], Hb as [->|Hb]; auto.
  - exfalso. apply Hx. rewrite Hf. apply in_map. exact Hb.
  - exfalso. apply Hx. rewrite <- Hf. apply in_map. exact Ha.
Qed.

Lemma keys_app {V} (d1 d2 : Dict.t V) :
  Dict.keys (d1 ++ d2) = Dict.keys d1 ++ Dict.keys d2.
Proof. apply map_app. Qed.

Section Strict.

Context {V : Type}.
Implicit Types (items acc r : Dict.t V).

(** A run of the loop that ends normally has appended the re-keyed items
    to the accumulator, without meeting a key twice. *)
Lemma normalize_strict_ok items : forall acc r,
  Dict.wf acc ->
  normalize_strict items acc = Ok r ->
  r = acc ++ rekey items /\ Dict.wf r.
Proof.
  induction items as [|[k v] rest IH]; intros acc r Hwf; simpl.
  - intros [= <-]. rewrite app_nil_r. split; [reflexivity | exact Hwf].
  - destruct (Dict.contains (normalized_key k) acc) eqn:Hc; [discriminate|].
    apply contains_false_iff in Hc. intros Hrun.
    apply IH in Hrun; [|apply wf_setitem; exact Hwf].
    rewrite (setitem_absent _ _ _ Hc) in Hrun.
    rewrite <- app_assoc in Hrun. exact Hrun.
Qed.

(** It ends normally whenever the canonical keys are new and distinct. *)
Lemma normalize_strict_complete items : forall acc,
  Dict.wf (acc ++ rekey items) ->
  normalize_strict items acc = Ok (acc ++ rekey items).
Proof.
  induction items as [|[k v] rest IH]; intros acc Hwf; simpl.
  - rewrite app_nil_r. reflexivity.
  - assert (Hout : ~ In (normalized_key k) (Dict.keys acc)).
    { unfold Dict.wf in Hwf. rewrite keys_app in Hwf. simpl in Hwf.
      apply NoDup_remove_2 in Hwf. intros Hin. apply Hwf.
      apply in_or_app. left. exact Hin. }
    apply contains_false_iff in Hout as Hc. rewrite Hc.
    rewrite (setitem_absent _ _ _ Hout).
    rewrite IH; rewrite <- app_assoc; [reflexivity | exact Hwf].
Qed.

(** A run that raises stopped at the first item whose canonical key was
    already in the result, and its error carries that key. *)
Lemma normalize_strict_raise items : forall acc e,
  normalize_strict items acc = Raise e ->
  exists pre k v post,
    items = pre ++ (k, v) :: post
    /\ e = ValueError (duplicate_message (normalized_key k))
    /\ In (normalized_key k) (Dict.keys acc ++ Dict.keys (rekey pre)).
Proof.
  induction items as [|[k v] rest IH]; intros acc e; simpl; [discriminate|].
  destruct (Dict.contains (normalized_key k) acc) eqn:Hc.
  - intros [= <-]. exists [], k, v, rest. simpl. rewrite app_nil_r.
    apply contains_true_iff in Hc. auto.
  - intros Hrun. apply IH in Hrun as (pre & k' & v' & post & -> & -> & Hin).
    exists ((k, v) :: pre), k', v', post. repeat split.
    apply contains_false_iff in Hc.
    rewrite (setitem_absent _ _ _ Hc), keys_app, <- app_assoc in Hin.
    exact Hin.
Qed.

End Strict.

Lemma normalize_keys_None_ok {V} (d r : Dict.t V) :
  normalize_keys None d = Ok r -> r = rekey d /\ Dict.wf r.
Proof.
  unfold normalize_keys, _normalize_keys_impl. intros H.
  apply normalize_strict_ok in H; [exact H | apply wf_nil].
Qed.

Lemma normalize_keys_None_complete {V} (d : Dict.t V) :
  Dict.wf (rekey d) -> normalize_keys None d = Ok (rekey d).
Proof.
  intros H. unfold normalize_keys, _normalize_keys_impl.
  apply (normalize_strict_complete d []). exact H.
Qed.

(** On a dict whose keys are canonical already the normaliser is the
    identity. *)
Lemma normalize_keys_None_fixed {V} (d : Dict.t V) :
  Dict.wf d -> Forall canonical (Dict.keys d) -> normalize_keys None d = Ok d.
Proof.
  intros Hwf Hcan. pose proof (rekey_canonical d Hcan) as E.
  rewrite <- E at 2. apply normalize_keys_None_complete. rewrite E. exact Hwf.
Qed.

(** ** [_normalize_keys_impl] with an aggregator *)

Section Collect.

Context {V : Type}.
Implicit Types (d : Dict.t V) (acc : Dict.t (list V)).

Lemma raw_values_cons key k v d :
  raw_values key ((k, v) :: d)
  = if normalized_key k =? key then v :: raw_values key d else raw_values key d.
Proof.
  unfold raw_values. simpl. destruct (normalized_key k =? key); reflexivity.
Qed.

(** The first loop appends, under every canonical key, the raw values that
    belong to it, in the order of the items. *)
Lemma get_collect_loop key d : forall acc,
  Dict.get key
    (fold_left
       (fun result '(k, value) =>
          let k := normalized_key k in
          Dict.setitem k (Dict.get_or k [] result ++ [value]) result)
       d acc)
  = match Dict.get key acc, raw_values key d with
    | None, [] => None
    | None, vs => Some vs
    | Some l, vs => Some (l ++ vs)
    end.
Proof.
  induction d as [|[k v] d IH]; intros acc.
  - simpl. destruct (Dict.get key acc); [rewrite app_nil_r|]; reflexivity.
  - cbn [fold_left]. rewrite IH, raw_values_cons, get_setitem.
    unfold Dict.get_or.
    destruct (String.eqb_spec (normalized_key k) key) as [->|Hne].
    + destruct (Dict.get key acc) as [l|]; simpl.
      * rewrite <- app_assoc. reflexivity.
      * reflexivity.
    + reflexivity.
Qed.

Lemma get_normalize_collect key d :
  Dict.get key (normalize_collect d)
  = match raw_values key d with
    | [] => None
    | vs => Some vs
    end.
Proof. unfold normalize_collect. rewrite get_collect_loop. reflexivity. Qed.

Lemma get_map_values {W} (f : list V -> W) key acc :
  Dict.get key (map (fun '(k, values) => (k, f values)) acc)
  = option_map f (Dict.get key acc).
Proof.
  induction acc as [|[k l] acc IH]; simpl; [reflexivity|].
  destruct (k =? key); [reflexivity | exact IH].
Qed.

Lemma raw_values_none key d :
  (forall k, In k (Dict.keys d) -> normalized_key k <> key) ->
  raw_values key d = [].
Proof.
  induction d as [|[k v] d IH]; intros H; [reflexivity|].
  rewrite raw_values_cons.
  destruct (String.eqb_spec (normalized_key k) key) as [E|_].
  - exfalso. apply (H k); [left; reflexivity | exact E].
  - apply IH. intros k' Hk'. apply H. right. exact Hk'.
Qed.

(** A raw key that shares its canonical key with no other key of the dict
    contributes a list of one value. *)
Lemma raw_values_single d k v :
  Dict.wf d ->
  Dict.get k d = Some v ->
  (forall k', In k' (Dict.keys d) -> normalized_key k' = normalized_key k -> k' = k) ->
  raw_values (normalized_key k) d = [v].
Proof.
  induction d as [|[k0 v0] d IH]; intros Hwf Hget Huniq; [discriminate|].
  apply wf_cons_inv in Hwf as [Hout Hwf].
  rewrite raw_values_cons. simpl in Hget. revert Hget.
  destruct (String.eqb_spec k0 k) as [->|Hne]; intros Hget.
  - injection Hget as ->. rewrite String.eqb_refl. f_equal.
    apply raw_values_none. intros k' Hk' E.
    apply Hout. rewrite <- (Huniq k'); [exact Hk' | right; exact Hk' | exact E].
  - destruct (String.eqb_spec (normalized_key k0) (normalized_key k)) as [E|_].
    + exfalso. apply Hne. apply Huniq; [left; reflexivity | exact E].
    + apply IH; [exact Hwf | exact Hget |].
      intros k' Hk'. apply Huniq. right. exact Hk'.
Qed.

End Collect.

(** ** Two levels *)

Section Recursive.

Context {V : Type}.
Implicit Types (d : Dict.t (Dict.t V)).

Lemma traverse_rows_ok d : forall d',
  traverse
    (fun '(key, entry) =>
       entry' <- normalize_keys (@None (list V -> V)) entry ;; Ok (key, entry'))
    d = Ok d' ->
  Dict.keys d' = Dict.keys d /\ Forall row_normal (Dict.values d').
Proof.
  induction d as [|[k row] d IH]; intros d'; cbn [traverse].
  - intros [= <-]. split; [reflexivity | constructor].
  - destruct (normalize_keys None row) as [row'|] eqn:Erow; cbn [bind]; [|discriminate].
    destruct (traverse _ d) as [rest|] eqn:Erest; cbn [bind]; [|discriminate].
    intros [= <-]. destruct (IH rest eq_refl) as [Hk Hv].
    apply normalize_keys_None_ok in Erow as [-> Hwf].
    simpl. split; [f_equal; exact Hk|].
    constructor; [|exact Hv]. split; [exact Hwf | apply canonical_keys_rekey].
Qed.

Lemma traverse_rows_fixed d :
  Forall row_normal (Dict.values d) ->
  traverse
    (fun '(key, entry) =>
       entry' <- normalize_keys (@None (list V -> V)) entry ;; Ok (key, entry'))
    d = Ok d.
Proof.
  induction d as [|[k row] d IH]; cbn [traverse]; [reflexivity|].
  intros H. inversion H as [|? ? [Hwf Hcan] Hrest]; subst.
  rewrite (normalize_keys_None_fixed row Hwf Hcan). cbn [bind].
  rewrite (IH Hrest). reflexivity.
Qed.

(** What a successful two-level normalisation returns. *)
Lemma normalize_keys_recursive_ok d r :
  normalize_keys_recursive None d = Ok r -> normal2 r.
Proof.
  unfold normalize_keys_recursive. cbn [option_map].
  destruct (traverse _ d) as [d'|] eqn:Et; cbn [bind]; [|discriminate].
  intros H. apply traverse_rows_ok in Et as [_ Hrows].
  apply (normalize_keys_None_ok d' r) in H as [-> Hwf].
  split; [split; [exact Hwf | apply canonical_keys_rekey]|].
  rewrite values_rekey. exact Hrows.
Qed.

Lemma normalize_keys_recursive_fixed d :
  normal2 d -> normalize_keys_recursive None d = Ok d.
Proof.
  intros [[Hwf Hcan] Hrows]. unfold normalize_keys_recursive. cbn [option_map].
  rewrite (traverse_rows_fixed d Hrows). cbn [bind].
  apply (normalize_keys_None_fixed d Hwf Hcan).
Qed.

End Recursive.

(** ** The key normaliser: conflicts, aggregation, idempotence *)

(** C1.  Without an aggregator, a dict in which two distinct raw keys have
    the same canonical key makes the normaliser raise; the error is the
    [ValueError] (the specification's DuplicateKeyError) whose message is
    the text [Multiple values for normalized key "K" are found, but no
    aggregation is provided], [K] being a canonical key that two distinct
    raw keys of the dict share.  With an aggregator the values that
    collide reach it in encounter order, and with [sum] the dict
    [{"btc": 1, "BTC": 2}] becomes [{"BTC": 3}]. *)
Theorem conflict_raises_or_aggregates :
  (forall (V : Type) (d : Dict.t V) (k1 k2 : string),
      Dict.wf d ->
      In k1 (Dict.keys d) -> In k2 (Dict.keys d) -> k1 <> k2 ->
      normalized_key k1 = normalized_key k2 ->
      exists a b,
        In a (Dict.keys d) /\ In b (Dict.keys d) /\ a <> b
        /\ normalized_key a = normalized_key b
        /\ _normalize_keys_impl None d
           = Raise
               (ValueError
                  (String.append "Multiple values for normalized key "
                     (String "034"%char
                        (String.append (normalized_key a)
                           (String "034"%char
                              " are found, but no aggregation is provided"))))))
  /\ _normalize_keys_impl None [("btc", 1%float); ("BTC", 2%float)]
     = Raise
         (ValueError
            (String.append "Multiple values for normalized key "
               (String "034"%char
                  (String.append "BTC"
                     (String "034"%char
                        " are found, but no aggregation is provided")))))
  /\ (forall (V : Type) (agg : list V -> V) (x y : V),
        _normalize_keys_impl (Some agg) [("btc", x); ("BTC", y)]
        = Ok [("BTC", agg [x; y])])
  /\ _normalize_keys_impl (Some py_sum) [("btc", 1%float); ("BTC", 2%float)]
     = Ok [("BTC", 3%float)].
Proof.
  split; [|repeat split; intros; reflexivity].
  intros V d k1 k2 Hwf H1 H2 Hne Hsame.
  destruct (_normalize_keys_impl None d) as [r|e] eqn:E.
  - exfalso. apply Hne. apply normalize_keys_None_ok in E as [-> Hr].
    unfold Dict.wf in Hr. rewrite keys_rekey in Hr.
    exact (NoDup_map_injective _ _ _ _ Hr H1 H2 Hsame).
  - unfold _normalize_keys_impl in E.
    apply normalize_strict_raise in E as (pre & k & v & post & -> & -> & Hin).
    simpl in Hin. rewrite keys_rekey in Hin.
    apply in_map_iff in Hin as (a & Ha & Hapre).
    exists k, a. unfold Dict.wf in Hwf. rewrite keys_app in *. simpl in Hwf.
    apply NoDup_remove_2 in Hwf.
    split; [apply in_or_app; right; left; reflexivity|].
    split; [apply in_or_app; left; exact Hapre|].
    split; [intros <-; apply Hwf; apply in_or_app; left; exact Hapre|].
    split; [symmetry; exact Ha|].
    reflexivity.
Qed.

(** C10.  With an aggregator, the value under every canonical key of the
    result is the aggregator applied to the list of the raw values of that
    key, and a canonical key has an entry exactly when that list is not
    empty; a raw key [k] with value [v] that collides with no other key
    ends as [agg([v])], not as [v]. *)
Theorem aggregator_applied_to_every_key :
  forall (V : Type) (agg : list V -> V) (d : Dict.t V),
  exists r,
    _normalize_keys_impl (Some agg) d = Ok r
    /\ (forall key,
          Dict.get key r
          = match raw_values key d with
            | [] => None
            | vs => Some (agg vs)
            end)
    /\ (forall k v,
          Dict.wf d ->
          Dict.get k d = Some v ->
          (forall k', In k' (Dict.keys d) ->
                      normalized_key k' = normalized_key k -> k' = k) ->
          Dict.get (normalized_key k) r = Some (agg [v])).
Proof.
  intros V agg d. eexists. split; [reflexivity|].
  assert (Hget : forall key,
    Dict.get key (map (fun '(k, values) => (k, agg values)) (normalize_collect d))
    = match raw_values key d with [] => None | vs => Some (agg vs) end).
  { intros key. rewrite get_map_values, get_normalize_collect.
    destruct (raw_values key d); reflexivity. }
  split; [exact Hget|].
  intros k v Hwf Hk Huniq. rewrite Hget.
  rewrite (raw_values_single d k v Hwf Hk Huniq). reflexivity.
Qed.

(** C6.  Normalisation is idempotent: the canonical form of a key is its
    own canonical form, and a dict that the normaliser returned, flat or
    with two levels ([recursive=True]), is returned unchanged by a second
    call. *)
Theorem normalization_idempotent :
  (forall k, normalized_key (normalized_key k) = normalized_key k)
  /\ (forall (V : Type) (x y : Dict.t V),
        normalize_keys None x = Ok y -> normalize_keys None y = Ok y)
  /\ (forall (V : Type) (x y : Dict.t (Dict.t V)),
        normalize_keys_recursive None x = Ok y ->
        normalize_keys_recursive None y = Ok y).
Proof.
  split; [exact normalized_key_canonical|]. split.
  - intros V x y H. apply normalize_keys_None_ok in H as [-> Hwf].
    apply normalize_keys_None_fixed; [exact Hwf | apply canonical_keys_rekey].
  - intros V x y H. apply normalize_keys_recursive_ok in H.
    apply normalize_keys_recursive_fixed. exact H.
Qed.

(** ** Binary64 facts *)

Lemma Prim2SF_zero : Prim2SF 0%float = S754_zero false.
Proof. reflexivity. Qed.

(** A product of real numbers one of which is zero is zero. *)
Lemma mul_zero_finite x y :
  finite x = true -> finite y = true ->
  ((x =? 0) || (y =? 0))%float = true ->
  (x * y =? 0)%float = true.
Proof.
  unfold finite. rewrite !eqb_spec, mul_spec, Prim2SF_zero.
  destruct (Prim2SF x) as [sx|sx| |sx mx ex], (Prim2SF y) as [sy|sy| |sy my ey];
    simpl; try discriminate; try reflexivity.
  intros _ _. unfold SFeqb. simpl. destruct sx, sy; discriminate.
Qed.

(** [0 + c] is positive exactly when [c] is, and is then [c] itself. *)
Lemma add_zero_positive c :
  (0 <? 0 + c)%float = (0 <? c)%float
  /\ ((0 <? c)%float = true -> (0 + c)%float = c).
Proof.
  rewrite !ltb_spec, add_spec, Prim2SF_zero. split.
  - destruct (Prim2SF c) as [s|s| |s m e]; try reflexivity.
    destruct s; reflexivity.
  - intros Hpos. apply Prim2SF_inj. rewrite add_spec, Prim2SF_zero.
    destruct (Prim2SF c) as [s|s| |s m e]; try reflexivity.
    destruct s; discriminate.
Qed.

(** ** Loops that fill a dict *)

Section Loops.

Context {A W : Type}.
Variables (cond : string -> A -> bool) (f : string -> A -> W).
Variable step : Dict.t W -> string * A -> Dict.t W.
Hypothesis step_eq : forall r k a,
  step r (k, a) = if cond k a then Dict.setitem k (f k a) r else r.

(** [for k, a in l.items(): if cond(k, a): result[k] = f(k, a)] *)
Lemma get_fold_setitem (l : Dict.t A) : forall acc k,
  Dict.wf l ->
  Dict.get k (fold_left step l acc)
  = match Dict.get k l with
    | Some a => if cond k a then Some (f k a) else Dict.get k acc
    | None => Dict.get k acc
    end.
Proof.
  induction l as [|[k0 a0] l IH]; intros acc k Hwf; [reflexivity|].
  apply wf_cons_inv in Hwf as [Hout Hwf].
  cbn [fold_left Dict.get]. rewrite (IH _ _ Hwf), step_eq.
  destruct (String.eqb_spec k0 k) as [->|Hne].
  - apply get_None_iff in Hout. rewrite Hout.
    destruct (cond k a0); [apply get_setitem_same | reflexivity].
  - destruct (cond k0 a0); [rewrite (get_setitem_other _ _ _ _ Hne)|]; reflexivity.
Qed.

Lemma wf_fold_setitem (l : Dict.t A) : forall acc,
  Dict.wf acc -> Dict.wf (fold_left step l acc).
Proof.
  induction l as [|[k0 a0] l IH]; intros acc Hwf; [exact Hwf|].
  cbn [fold_left]. apply IH. rewrite step_eq.
  destruct (cond k0 a0); [apply wf_setitem|]; exact Hwf.
Qed.

End Loops.

(** [for key in keys: if key not in result: result[key] = zero] *)
Lemma get_fold_fill {W} (zero : W) (keys : list string) : forall result k,
  Dict.get k
    (fold_left
       (fun result key =>
          if Dict.contains key result then result else Dict.setitem key zero result)
       keys result)
  = match Dict.get k result with
    | Some x => Some x
    | None => if in_dec string_dec k keys then Some zero else None
    end.
Proof.
  induction keys as [|k0 keys IH]; intros result k; cbn [fold_left].
  - destruct (Dict.get k result); reflexivity.
  - rewrite IH. unfold Dict.contains.
    destruct (Dict.get k0 result) as [x0|] eqn:E0.
    + destruct (Dict.get k result) eqn:E; [reflexivity|].
      destruct (in_dec string_dec k keys) as [Hin|Hout];
        destruct (in_dec string_dec k (k0 :: keys)) as [Hin'|Hout']; try reflexivity.
      * exfalso. apply Hout'. right. exact Hin.
      * destruct Hin' as [->|Hin']; [congruence | contradiction].
    + rewrite get_setitem.
      destruct (String.eqb_spec k0 k) as [->|Hne].
      * rewrite E0. destruct (in_dec string_dec k (k :: keys)) as [_|Hout'];
          [reflexivity | exfalso; apply Hout'; left; reflexivity].
      * destruct (Dict.get k result); [reflexivity|].
        destruct (in_dec string_dec k keys) as [Hin|Hout];
          destruct (in_dec string_dec k (k0 :: keys)) as [Hin'|Hout']; try reflexivity.
        -- exfalso. apply Hout'. right. exact Hin.
        -- destruct Hin' as [->|Hin']; [congruence | contradiction].
Qed.

Lemma wf_fold_fill {W} (zero : W) (keys : list string) : forall result,
  Dict.wf result ->
  Dict.wf
    (fold_left
       (fun result key =>
          if Dict.contains key result then result else Dict.setitem key zero result)
       keys result).
Proof.
  induction keys as [|k0 keys IH]; intros result Hwf; cbn [fold_left]; [exact Hwf|].
  apply IH. destruct (Dict.contains k0 result); [|apply wf_setitem]; exact Hwf.
Qed.

(** ** [Balance.__mul__] *)

Lemma In_keys_iff_get {V} (d : Dict.t V) k :
  In k (Dict.keys d) <-> Dict.get k d <> None.
Proof.
  split.
  - intros H E. apply get_None_iff in E. contradiction.
  - intros H. destruct (Dict.get k d) eqn:E; [eapply get_In_keys; eauto | contradiction].
Qed.

(** What the product of two vectors holds under every key. *)
Lemma mul_counter (u v : Balance.t) :
  Dict.wf u ->
  exists r,
    Balance.__mul__ u (Balance.OfCounter v) = Ok r
    /\ Dict.wf r
    /\ forall k,
         Dict.get k r
         = match Dict.get k u with
           | Some x => Some (x * Dict.get_or k 0 v)%float
           | None => if in_dec string_dec k (Dict.keys v) then Some 0%float else None
           end.
Proof.
  intros Hwf. eexists. split; [reflexivity|]. split.
  - apply wf_fold_fill.
    apply (wf_fold_setitem (fun _ _ => true)
             (fun k x => (x * Dict.get_or k 0 v)%float)); [reflexivity | apply wf_nil].
  - intros k. rewrite get_fold_fill.
    rewrite (get_fold_setitem (fun _ _ => true)
               (fun k x => (x * Dict.get_or k 0 v)%float)); [|reflexivity | exact Hwf].
    destruct (Dict.get k u); reflexivity.
Qed.

(** C3, amended.  The product of two Amount Vectors raises nothing; its keys are
    the keys of either operand; under a key of the left operand it holds
    the product of the two amounts, an amount missing on the right read as
    zero; under a key of the right operand alone it holds zero, which is
    the product with the missing left amount read as zero; and wherever
    the price or the amount is zero and both are finite numbers the key
    is present with value zero (an infinity times zero is not a
    number). *)
Theorem multiply_is_elementwise_product (u v : Balance.t) :
  Dict.wf u ->
  exists r,
    Balance.__mul__ u (Balance.OfCounter v) = Ok r
    /\ Dict.wf r
    /\ (forall k, In k (Dict.keys r) <-> In k (Dict.keys u) \/ In k (Dict.keys v))
    /\ (forall k x,
          Dict.get k u = Some x ->
          Dict.get k r = Some (x * Counter.getitem v k)%float)
    /\ (forall k y,
          Dict.get k u = None -> Dict.get k v = Some y ->
          Dict.get k r = Some 0%float
          /\ (finite y = true -> (0 =? 0 * y)%float = true))
    /\ (forall k,
          In k (Dict.keys u) \/ In k (Dict.keys v) ->
          finite (Counter.getitem u k) = true ->
          finite (Counter.getitem v k) = true ->
          ((Counter.getitem u k =? 0) || (Counter.getitem v k =? 0))%float = true ->
          exists z, Dict.get k r = Some z /\ (z =? 0)%float = true).
Proof.
  intros Hwf. destruct (mul_counter u v Hwf) as (r & Hr & Hwfr & Hget).
  exists r. split; [exact Hr|]. split; [exact Hwfr|].
  assert (Hkeys : forall k,
             In k (Dict.keys r) <-> In k (Dict.keys u) \/ In k (Dict.keys v)).
  { intros k. rewrite (In_keys_iff_get r), Hget.
    destruct (Dict.get k u) as [x|] eqn:Eu.
    - split; [intros _; left; eapply get_In_keys; eauto | discriminate].
    - apply get_None_iff in Eu.
      destruct (in_dec string_dec k (Dict.keys v)); split; try tauto; discriminate. }
  split; [exact Hkeys|]. split; [|split].
  - intros k x Eu. rewrite Hget, Eu. reflexivity.
  - intros k y Eu Ev. rewrite Hget, Eu. split.
    + destruct (in_dec string_dec k (Dict.keys v)) as [_|Hout]; [reflexivity|].
      exfalso. apply Hout. eapply get_In_keys; eauto.
    + intros Hy. rewrite eqb_spec, mul_spec, Prim2SF_zero.
      unfold finite in Hy.
      destruct (Prim2SF y) as [s|s| |s m e]; try discriminate; reflexivity.
  - intros k Hk Hx Hy Hzero. rewrite Hget.
    unfold Counter.getitem, Dict.get_or in Hx, Hzero.
    destruct (Dict.get k u) as [x|] eqn:Eu.
    + eexists. split; [reflexivity|]. apply mul_zero_finite; assumption.
    + exists 0%float. split; [|reflexivity].
      destruct (in_dec string_dec k (Dict.keys v)) as [_|Hout]; [reflexivity|].
      apply get_None_iff in Eu. tauto.
Qed.

Lemma multiply_is_elementwise_product_witness :
  Dict.wf [("BTC", 2%float); ("XMR", 0%float)]
  /\ exists r,
       Balance.__mul__ [("BTC", 2%float); ("XMR", 0%float)]
         (Balance.OfCounter [("BTC", 0%float); ("XMR", 5%float); ("USDT", 9000%float)])
       = Ok r
       /\ Dict.get "USDT" r = Some 0%float.
Proof.
  assert (Hwf : Dict.wf [("BTC", 2%float); ("XMR", 0%float)]).
  { unfold Dict.wf. simpl. repeat constructor; simpl; intuition discriminate. }
  split; [exact Hwf|].
  destruct (multiply_is_elementwise_product
              [("BTC", 2%float); ("XMR", 0%float)]
              [("BTC", 0%float); ("XMR", 5%float); ("USDT", 9000%float)] Hwf)
    as (r & Hr & _ & _ & _ & Hright & _).
  exists r. split; [exact Hr|].
  apply (Hright "USDT" 9000%float); reflexivity.
Defined.

(** C3, as the specification states it, fails: the graph built from
    [{"b": {"a": 5e-324}}] has, once inverted, the sell price [1 / 5e-324]
    of [A] in [B], which in binary64 is an infinity; the vector
    [{"B": 0}], whose amount of [B] is zero, multiplied by that row holds
    under [B] the value [0 * inf], which is NaN and not zero. *)
Lemma zero_amount_times_infinite_price_is_nan :
  exists g row r,
    Ticker.__init__ [("b", [("a", 0x1p-1074%float)])] = Ok g
    /\ MarketAPI.sell_prices "A" g = Ok row
    /\ Balance.__mul__ [("B", 0%float)] (Balance.OfCounter row) = Ok r
    /\ Dict.get "B" r = Some (0 * (1 / 0x1p-1074))%float
    /\ (0 * (1 / 0x1p-1074) =? 0)%float = false
    /\ PrimFloat.is_nan (0 * (1 / 0x1p-1074))%float = true.
Proof. do 3 eexists. by_evaluation. Qed.

(** C4, as the specification states it, fails: the product of
    [{"BTC": 2}] and the price row [{"BTC": 1.0, "USDT": 9000}] is a vector
    that is not [==] to [{"BTC": 2, "USDT": 18000}]. *)
Lemma scenario_product_is_not_18000 :
  exists r,
    Balance.__mul__ [("BTC", 2%float)]
      (Balance.OfCounter [("BTC", 1%float); ("USDT", 9000%float)]) = Ok r
    /\ Counter.eqb r [("BTC", 2%float); ("USDT", 18000%float)] = false
    /\ Dict.get "USDT" r = Some 0%float.
Proof. eexists. by_evaluation. Qed.

(** C4, amended.  The product of [{"BTC": 2}] and the price row
    [{"BTC": 1.0, "USDT": 9000}] is [{"BTC": 2, "USDT": 0}]: the vector
    holds no USDT, and the product is taken key by key. *)
Theorem scenario_product :
  Balance.__mul__ [("BTC", 2%float)]
    (Balance.OfCounter [("BTC", 1%float); ("USDT", 9000%float)])
  = Ok [("BTC", 2%float); ("USDT", 0%float)].
Proof. reflexivity. Qed.

(** ** [Counter.__add__] and [Balance.__add__] *)

Lemma get_counter_add (u v : Counter.t) k :
  Dict.wf u -> Dict.wf v ->
  Dict.get k (Counter.__add__ u v)
  = match Dict.get k u with
    | Some c =>
        if (0 <? c + Counter.getitem v k)%float
        then Some (c + Counter.getitem v k)%float
        else None
    | None =>
        match Dict.get k v with
        | Some c => if (0 <? c)%float then Some c else None
        | None => None
        end
    end.
Proof.
  intros Hu Hv. unfold Counter.__add__.
  rewrite (get_fold_setitem
             (fun k c => negb (Dict.contains k u) && (0 <? c)%float)
             (fun _ c => c)); [|reflexivity | exact Hv].
  rewrite (get_fold_setitem
             (fun k c => (0 <? c + Counter.getitem v k)%float)
             (fun k c => (c + Counter.getitem v k)%float)); [|reflexivity | exact Hu].
  unfold Dict.contains. simpl.
  destruct (Dict.get k u) as [c|]; destruct (Dict.get k v) as [c'|]; reflexivity.
Qed.

Lemma wf_counter_add (u v : Counter.t) : Dict.wf (Counter.__add__ u v).
Proof.
  unfold Counter.__add__.
  apply (wf_fold_setitem
           (fun k c => negb (Dict.contains k u) && (0 <? c)%float)
           (fun _ c => c)); [reflexivity|].
  apply (wf_fold_setitem
           (fun k c => (0 <? c + Counter.getitem v k)%float)
           (fun k c => (c + Counter.getitem v k)%float)); [reflexivity | apply wf_nil].
Qed.

(** The sum of two counters holds, of the keys of either, those whose sum
    of counts (a missing count read as zero) is strictly positive, each
    with that sum. *)
Lemma get_counter_add_sum (u v : Counter.t) k :
  Dict.wf u -> Dict.wf v ->
  Dict.get k (Counter.__add__ u v)
  = if (Dict.contains k u || Dict.contains k v)
       && (0 <? Counter.getitem u k + Counter.getitem v k)%float
    then Some (Counter.getitem u k + Counter.getitem v k)%float
    else None.
Proof.
  intros Hu Hv. rewrite (get_counter_add u v k Hu Hv).
  unfold Counter.getitem, Dict.get_or, Dict.contains.
  destruct (Dict.get k u) as [c|]; [reflexivity|].
  destruct (Dict.get k v) as [c|]; [|reflexivity]. simpl.
  destruct (add_zero_positive c) as [Hlt Heq]. rewrite Hlt.
  destruct (0 <? c)%float; [rewrite Heq; reflexivity | reflexivity].
Qed.

Lemma load_new (h : Heap.t) (c : Counter.t) :
  Heap.load (length h) (h ++ [c]) = Some c.
Proof.
  unfold Heap.load. rewrite nth_error_app2, Nat.sub_diag by apply Nat.le_refl.
  reflexivity.
Qed.

(** C9, as the specification states it, fails: the sum of the balances
    [{"BTC": 1.5, "ETH": 0}] and [{"ETH": 0, "LTC": 0}] is [{"BTC": 1.5}];
    [ETH] and [LTC] are keys of the operands and not of the sum. *)
Lemma sum_drops_zero_balances :
  exists result h',
    Heap.Balance_add 0 1
      [ [("BTC", 1.5%float); ("ETH", 0%float)];
        [("ETH", 0%float); ("LTC", 0%float)] ]
    = Some (result, h')
    /\ Heap.load result h' = Some [("BTC", 1.5%float)]
    /\ Dict.contains "ETH" [("BTC", 1.5%float); ("ETH", 0%float)] = true
    /\ Dict.contains "ETH" [("BTC", 1.5%float)] = false.
Proof. do 2 eexists. by_evaluation. Qed.

(** C9, amended.  The sum of two Amount Vectors is a new object, no object
    of the store is changed by the addition (so neither operand is), and
    the new vector holds exactly the keys of either operand whose sum of
    amounts is strictly positive, each with that sum: a key whose sum is
    zero or negative is dropped. *)
Theorem add_keeps_positive_sums
    (h : Heap.t) (self other : Heap.address) (u v : Balance.t) :
  Heap.load self h = Some u ->
  Heap.load other h = Some v ->
  Dict.wf u -> Dict.wf v ->
  exists result h' w,
    Heap.Balance_add self other h = Some (result, h')
    /\ Heap.load result h = None
    /\ Heap.load result h' = Some w
    /\ (forall a x, Heap.load a h = Some x -> Heap.load a h' = Some x)
    /\ Dict.wf w
    /\ (forall k,
          Dict.get k w
          = if (Dict.contains k u || Dict.contains k v)
               && (0 <? Counter.getitem u k + Counter.getitem v k)%float
            then Some (Counter.getitem u k + Counter.getitem v k)%float
            else None)
    /\ (forall k,
          In k (Dict.keys w)
          <-> (In k (Dict.keys u) \/ In k (Dict.keys v))
              /\ (0 <? Counter.getitem u k + Counter.getitem v k)%float = true).
Proof.
  intros Hself Hother Hu Hv.
  set (w := Counter.__add__ u v).
  exists (length (h ++ [w])), ((h ++ [w]) ++ [w]), w.
  assert (Hget := fun k => get_counter_add_sum u v k Hu Hv). fold w in Hget.
  split; [|split; [|split; [|split; [|split; [|split]]]]].
  - unfold Heap.Balance_add. rewrite Hself, Hother. fold w.
    unfold Heap.new. rewrite load_new. reflexivity.
  - unfold Heap.load. apply nth_error_None. rewrite length_app. lia.
  - apply load_new.
  - unfold Heap.load. intros a x Ha.
    assert (a < length h) by (apply nth_error_Some; congruence).
    rewrite <- app_assoc, nth_error_app1 by assumption. exact Ha.
  - apply wf_counter_add.
  - exact Hget.
  - intros k. rewrite In_keys_iff_get, Hget, <- !contains_true_iff.
    destruct (Dict.contains k u), (Dict.contains k v),
      (0 <? Counter.getitem u k + Counter.getitem v k)%float; simpl;
      intuition discriminate.
Qed.

(** ** [inverted] *)

Lemma row_normal_nil {V} : row_normal (@nil (string * V)).
Proof. split; [apply wf_nil | constructor]. Qed.

Lemma row_normal_setitem {V} (row : Dict.t V) k v :
  canonical k -> row_normal row -> row_normal (Dict.setitem k v row).
Proof.
  intros Hk [Hwf Hcan]. split; [apply wf_setitem; exact Hwf|].
  apply Forall_forall. intros k' Hk'. apply In_keys_setitem in Hk' as [->|Hk'];
    [exact Hk | exact (proj1 (Forall_forall _ _) Hcan k' Hk')].
Qed.

Lemma get_get_or {V} (r : Dict.t (Dict.t V)) to x :
  Dict.get x (Dict.get_or to [] r) = Dict.get2 to x r.
Proof.
  unfold Dict.get2, Dict.get_or. change (list (string * V)) with (Dict.t V).
  destruct (Dict.get to r); reflexivity.
Qed.

Lemma get_or_nil_cases {V} (r : Dict.t (Dict.t V)) to :
  Dict.get_or to [] r = [] \/ In (Dict.get_or to [] r) (Dict.values r).
Proof.
  unfold Dict.get_or. change (list (string * V)) with (Dict.t V).
  destruct (Dict.get to r) eqn:E;
    [right; eapply get_In_values; eauto | left; reflexivity].
Qed.

Lemma get2_cons {V} (d : Dict.t (Dict.t V)) k row a b :
  Dict.get2 a b ((k, row) :: d)
  = if k =? a then Dict.get b row else Dict.get2 a b d.
Proof. unfold Dict.get2. simpl. destruct (k =? a); reflexivity. Qed.

Section Inverted.

Context {A B : Type} (inverter : A -> B).
Implicit Types (d : Dict.t (Dict.t A)) (r : Dict.t (Dict.t B)).

(** [result[to][from_] = y] on a [defaultdict(dict)]. *)
Lemma get2_setitem2 r to0 from_ y to x :
  Dict.get2 to x
    (Dict.setitem to0 (Dict.setitem from_ y (Dict.get_or to0 [] r)) r)
  = if (to0 =? to) && (from_ =? x) then Some y else Dict.get2 to x r.
Proof.
  destruct (String.eqb_spec to0 to) as [->|Hne]; simpl.
  - unfold Dict.get2 at 1. rewrite get_setitem_same, get_setitem.
    destruct (from_ =? x); [reflexivity | apply get_get_or].
  - unfold Dict.get2. rewrite get_setitem_other by assumption. reflexivity.
Qed.

Lemma normal2_setitem2 r to from_ y :
  canonical to -> canonical from_ -> normal2 r ->
  normal2 (Dict.setitem to (Dict.setitem from_ y (Dict.get_or to [] r)) r).
Proof.
  intros Hto Hfrom [Hr Hrows]. split; [apply row_normal_setitem; assumption|].
  apply Forall_forall. intros row Hrow.
  apply In_values_setitem in Hrow as [->|Hrow];
    [|exact (proj1 (Forall_forall _ _) Hrows row Hrow)].
  apply row_normal_setitem; [exact Hfrom|].
  destruct (get_or_nil_cases r to) as [->|Hin]; [apply row_normal_nil|].
  exact (proj1 (Forall_forall _ _) Hrows _ Hin).
Qed.

(** The inner loop, over the entries of the row of [from_]. *)
Lemma get2_inverted_row from_ (entry : Dict.t A) : forall r to x,
  Dict.wf entry ->
  Dict.get2 to x
    (fold_left
       (fun result '(to, value) =>
          Dict.setitem to
            (Dict.setitem from_ (inverter value) (Dict.get_or to [] result))
            result)
       entry r)
  = match (if from_ =? x then Dict.get to entry else None) with
    | Some v => Some (inverter v)
    | None => Dict.get2 to x r
    end.
Proof.
  induction entry as [|[to0 v0] entry IH]; intros r to x Hwf.
  - simpl. destruct (from_ =? x); reflexivity.
  - apply wf_cons_inv in Hwf as [Hout Hwf].
    cbn [fold_left]. rewrite (IH _ _ _ Hwf), get2_setitem2. cbn [Dict.get].
    destruct (String.eqb_spec from_ x) as [->|Hne].
    + destruct (String.eqb_spec to0 to) as [->|Hne'].
      * apply get_None_iff in Hout. rewrite Hout. reflexivity.
      * reflexivity.
    + rewrite andb_false_r. reflexivity.
Qed.

Lemma normal2_inverted_row from_ (entry : Dict.t A) : forall r,
  canonical from_ -> Forall canonical (Dict.keys entry) -> normal2 r ->
  normal2
    (fold_left
       (fun result '(to, value) =>
          Dict.setitem to
            (Dict.setitem from_ (inverter value) (Dict.get_or to [] result))
            result)
       entry r).
Proof.
  induction entry as [|[to0 v0] entry IH]; intros r Hfrom Hcan Hr; [exact Hr|].
  inversion Hcan as [|? ? Hto Hrest]; subst.
  cbn [fold_left]. apply IH; [exact Hfrom | exact Hrest |].
  apply normal2_setitem2; assumption.
Qed.

(** The outer loop, over the rows. *)
Lemma get2_inverted_loop d : forall r to x,
  Dict.wf2 d ->
  Dict.get2 to x
    (fold_left
       (fun result '(from_, entry) =>
          fold_left
            (fun result '(to, value) =>
               Dict.setitem to
                 (Dict.setitem from_ (inverter value) (Dict.get_or to [] result))
                 result)
            entry result)
       d r)
  = match Dict.get2 x to d with
    | Some v => Some (inverter v)
    | None => Dict.get2 to x r
    end.
Proof.
  induction d as [|[from_ entry] d IH]; intros r to x [Hwf Hrows]; [reflexivity|].
  apply wf_cons_inv in Hwf as [Hout Hwf].
  inversion Hrows as [|? ? Hentry Hrest]; subst.
  cbn [fold_left]. rewrite IH by (split; assumption).
  rewrite (get2_inverted_row _ _ _ _ _ Hentry), get2_cons.
  destruct (String.eqb_spec from_ x) as [->|Hne]; [|reflexivity].
  assert (E : Dict.get2 x to d = None).
  { unfold Dict.get2. apply get_None_iff in Hout. rewrite Hout. reflexivity. }
  rewrite E. reflexivity.
Qed.

(** [inverted] transposes: [inverted(d, f)[b][a]] is [f(d[a][b])]. *)
Lemma get2_inverted d a b :
  Dict.wf2 d ->
  Dict.get2 b a (inverted d inverter) = option_map inverter (Dict.get2 a b d).
Proof.
  intros Hwf. unfold inverted.
  etransitivity; [exact (get2_inverted_loop d [] b a Hwf)|].
  destruct (Dict.get2 a b d); reflexivity.
Qed.

Lemma normal2_inverted_loop d : forall r,
  Forall canonical (Dict.keys d) ->
  Forall (fun row => Forall canonical (Dict.keys row)) (Dict.values d) ->
  normal2 r ->
  normal2
    (fold_left
       (fun result '(from_, entry) =>
          fold_left
            (fun result '(to, value) =>
               Dict.setitem to
                 (Dict.setitem from_ (inverter value) (Dict.get_or to [] result))
                 result)
            entry result)
       d r).
Proof.
  induction d as [|[from_ entry] d IH]; intros r Hcan Hrows Hr; [exact Hr|].
  inversion Hcan as [|? ? Hfrom Hcan']; subst.
  inversion Hrows as [|? ? Hentry Hrows']; subst.
  cbn [fold_left]. apply IH; [exact Hcan' | exact Hrows' |].
  apply normal2_inverted_row; assumption.
Qed.

Lemma normal2_wf2 {V} (d : Dict.t (Dict.t V)) : normal2 d -> Dict.wf2 d.
Proof.
  intros [[Hwf _] Hrows]. split; [exact Hwf|].
  apply Forall_forall. intros row Hrow.
  exact (proj1 (proj1 (Forall_forall _ _) Hrows row Hrow)).
Qed.

(** The transpose of a normal two-level dict is normal. *)
Lemma normal2_inverted d : normal2 d -> normal2 (inverted d inverter).
Proof.
  intros [[_ Hcan] Hrows]. unfold inverted.
  apply normal2_inverted_loop; [exact Hcan | | split; [apply row_normal_nil | constructor]].
  apply Forall_forall. intros row Hrow.
  exact (proj2 (proj1 (Forall_forall _ _) Hrows row Hrow)).
Qed.

End Inverted.

Lemma add_keeps_positive_sums_witness :
  exists result h' w,
    Heap.Balance_add 0 1
      [ [("BTC", 1.5%float); ("ETH", 0%float)];
        [("BTC", 0.25%float); ("LTC", 2%float)] ]
    = Some (result, h')
    /\ Heap.load result h' = Some w
    /\ Dict.get "BTC" w = Some 1.75%float
    /\ Dict.get "ETH" w = None
    /\ Dict.get "LTC" w = Some 2%float.
Proof.
  destruct (add_keeps_positive_sums
              [ [("BTC", 1.5%float); ("ETH", 0%float)];
                [("BTC", 0.25%float); ("LTC", 2%float)] ]
              0 1 _ _ eq_refl eq_refl)
    as (result & h' & w & Hrun & _ & Hload & _ & _ & Hget & _).
  - unfold Dict.wf. simpl. repeat constructor; simpl; intuition discriminate.
  - unfold Dict.wf. simpl. repeat constructor; simpl; intuition discriminate.
  - exists result, h', w. split; [exact Hrun|]. split; [exact Hload|].
    rewrite !Hget. by_evaluation.
Defined.

(** ** [Ticker]: construction *)

Lemma keys_add_self_loop (ks : list string) : forall (self : Ticker.t),
  Dict.keys
    (fold_left
       (fun self key =>
          match Dict.get key self with
          | Some row => Dict.setitem key (Dict.setitem key 1%float row) self
          | None => self
          end)
       ks self)
  = Dict.keys self.
Proof.
  induction ks as [|k0 ks IH]; intros self; cbn [fold_left]; [reflexivity|].
  rewrite IH. destruct (Dict.get k0 self) as [row|] eqn:E; [|reflexivity].
  apply keys_setitem_present. eapply get_In_keys. exact E.
Qed.

Lemma get_add_self_loop (ks : list string) : forall (self : Ticker.t) a,
  NoDup ks ->
  Dict.get a
    (fold_left
       (fun self key =>
          match Dict.get key self with
          | Some row => Dict.setitem key (Dict.setitem key 1%float row) self
          | None => self
          end)
       ks self)
  = if in_dec string_dec a ks
    then option_map (Dict.setitem a 1%float) (Dict.get a self)
    else Dict.get a self.
Proof.
  induction ks as [|k0 ks IH]; intros self a Hnd; cbn [fold_left]; [reflexivity|].
  inversion Hnd as [|? ? Hout Hnd']; subst. rewrite (IH _ _ Hnd').
  assert (Hstep : Dict.get a
            match Dict.get k0 self with
            | Some row => Dict.setitem k0 (Dict.setitem k0 1%float row) self
            | None => self
            end
          = if k0 =? a then option_map (Dict.setitem a 1%float) (Dict.get a self)
            else Dict.get a self).
  { destruct (String.eqb_spec k0 a) as [->|Hne].
    - destruct (Dict.get a self) as [row|] eqn:E; simpl;
        [apply get_setitem_same | exact E].
    - destruct (Dict.get k0 self); [apply get_setitem_other; exact Hne | reflexivity]. }
  rewrite Hstep.
  destruct (String.eqb_spec k0 a) as [->|Hne].
  - destruct (in_dec string_dec a ks) as [Hin|_]; [contradiction|].
    destruct (in_dec string_dec a (a :: ks)) as [_|Hno]; [reflexivity|].
    exfalso. apply Hno. left. reflexivity.
  - destruct (in_dec string_dec a ks) as [Hin|Hno];
      destruct (in_dec string_dec a (k0 :: ks)) as [Hin'|Hno']; try reflexivity.
    + exfalso. apply Hno'. right. exact Hin.
    + destruct Hin' as [E|Hin']; [contradiction | contradiction].
Qed.

Lemma keys_add_self_prices (t : Ticker.t) :
  Dict.keys (Ticker._add_self_prices t) = Dict.keys t.
Proof. apply keys_add_self_loop. Qed.

(** Every row of the graph receives its self-edge; nothing else changes. *)
Lemma get_add_self_prices (t : Ticker.t) a :
  Dict.wf t ->
  Dict.get a (Ticker._add_self_prices t)
  = option_map (Dict.setitem a 1%float) (Dict.get a t).
Proof.
  intros Hwf. unfold Ticker._add_self_prices.
  rewrite (get_add_self_loop _ _ _ Hwf).
  destruct (in_dec string_dec a (Dict.keys t)) as [_|Hout]; [reflexivity|].
  apply get_None_iff in Hout. rewrite Hout. reflexivity.
Qed.

Lemma get2_add_self_prices (t : Ticker.t) a b :
  Dict.wf t ->
  Dict.get2 a b (Ticker._add_self_prices t)
  = if a =? b
    then (if Dict.contains a t then Some 1%float else None)
    else Dict.get2 a b t.
Proof.
  intros Hwf. unfold Dict.get2, Dict.contains.
  rewrite (get_add_self_prices _ _ Hwf).
  destruct (Dict.get a t) as [row|]; simpl.
  - apply get_setitem.
  - destruct (a =? b); reflexivity.
Qed.

Lemma normal2_add_self_prices (t : Ticker.t) :
  normal2 t -> normal2 (Ticker._add_self_prices t).
Proof.
  intros [[Hwf Hcan] Hrows].
  assert (Hwf' : Dict.wf (Ticker._add_self_prices t)).
  { unfold Dict.wf. rewrite keys_add_self_prices. exact Hwf. }
  split; [split; [exact Hwf' | rewrite keys_add_self_prices; exact Hcan]|].
  apply Forall_forall. intros row' Hrow'.
  apply in_map_iff in Hrow' as ([k r] & <- & Hin). simpl.
  apply (In_get _ _ _ Hwf') in Hin. rewrite (get_add_self_prices _ _ Hwf) in Hin.
  destruct (Dict.get k t) as [row|] eqn:E; [|discriminate].
  injection Hin as <-. apply row_normal_setitem.
  - apply get_In_keys in E. exact (proj1 (Forall_forall _ _) Hcan k E).
  - apply get_In_values in E. exact (proj1 (Forall_forall _ _) Hrows row E).
Qed.

Lemma init_ok (raw g : Ticker.t) :
  Ticker.__init__ raw = Ok g ->
  exists t,
    normalize_keys_recursive None raw = Ok t
    /\ normal2 t
    /\ g = Ticker._add_self_prices t.
Proof.
  unfold Ticker.__init__, Ticker._normalize_keys.
  destruct (normalize_keys_recursive None raw) as [t|] eqn:E; cbn [bind]; [|discriminate].
  intros [= <-]. exists t. split; [reflexivity|]. split; [|reflexivity].
  eapply normalize_keys_recursive_ok. exact E.
Qed.

(** A constructed graph is normal and holds its self-edges. *)
Lemma constructed_normal2 (g : Ticker.t) : constructed g -> normal2 g.
Proof.
  intros [raw H]. apply init_ok in H as (t & _ & Ht & ->).
  apply normal2_add_self_prices. exact Ht.
Qed.

Lemma constructed_self_edge (g : Ticker.t) c :
  constructed g -> In c (Dict.keys g) -> Dict.get2 c c g = Some 1%float.
Proof.
  intros [raw H] Hc. apply init_ok in H as (t & _ & [[Hwf _] _] & ->).
  rewrite get2_add_self_prices, String.eqb_refl by exact Hwf.
  rewrite keys_add_self_prices in Hc. apply contains_true_iff in Hc.
  rewrite Hc. reflexivity.
Qed.

(** On a normal graph the constructor only adds the self-edges. *)
Lemma init_normal2 (d : Ticker.t) :
  normal2 d -> Ticker.__init__ d = Ok (Ticker._add_self_prices d).
Proof.
  intros H. unfold Ticker.__init__, Ticker._normalize_keys.
  rewrite (normalize_keys_recursive_fixed d H). reflexivity.
Qed.

Lemma normalize_keys_recursive_keys {V} (d r : Dict.t (Dict.t V)) :
  normalize_keys_recursive None d = Ok r ->
  Dict.keys r = map normalized_key (Dict.keys d).
Proof.
  unfold normalize_keys_recursive. cbn [option_map].
  destruct (traverse _ d) as [d'|] eqn:Et; cbn [bind]; [|discriminate].
  intros H. apply traverse_rows_ok in Et as [Hk _].
  apply (normalize_keys_None_ok d' r) in H as [-> _].
  rewrite keys_rekey, Hk. reflexivity.
Qed.

(** The sources of a constructed graph are the canonical forms of the raw
    sources. *)
Lemma init_keys (raw g : Ticker.t) :
  Ticker.__init__ raw = Ok g ->
  Dict.keys g = map normalized_key (Dict.keys raw).
Proof.
  intros H. apply init_ok in H as (t & Ht & _ & ->).
  rewrite keys_add_self_prices. apply normalize_keys_recursive_keys. exact Ht.
Qed.

(** ** [Ticker]: rows and inversion *)

Lemma and_reciprocal_one : and_reciprocal 1%float = 1%float.
Proof. reflexivity. Qed.

(** Inverting a constructed graph raises nothing, and turns every edge
    [a -> b] of price [p] into the edge [b -> a] of price
    [p and 1 / p]. *)
Lemma inverted_constructed (g : Ticker.t) :
  constructed g ->
  exists g1,
    Ticker.inverted g = Ok g1
    /\ constructed g1
    /\ forall a b p,
         Dict.get2 a b g = Some p ->
         Dict.get2 b a g1 = Some (and_reciprocal p).
Proof.
  intros Hg. pose proof (constructed_normal2 g Hg) as Hn.
  pose proof (normal2_inverted and_reciprocal g Hn) as Hn'.
  exists (Ticker._add_self_prices (inverted g and_reciprocal)).
  assert (Hrun : Ticker.inverted g
                 = Ok (Ticker._add_self_prices (inverted g and_reciprocal))).
  { unfold Ticker.inverted. apply init_normal2. exact Hn'. }
  split; [exact Hrun|]. split; [eexists; exact Hrun|].
  intros a b p Hedge.
  assert (Hinv : Dict.get2 b a (inverted g and_reciprocal) = Some (and_reciprocal p)).
  { rewrite (get2_inverted and_reciprocal g a b (normal2_wf2 g Hn)), Hedge. reflexivity. }
  rewrite get2_add_self_prices by exact (proj1 (proj1 Hn')).
  destruct (String.eqb_spec b a) as [->|Hne]; [|exact Hinv].
  assert (Hc : Dict.contains a (inverted g and_reciprocal) = true).
  { unfold Dict.contains. unfold Dict.get2 in Hinv.
    destruct (Dict.get a (inverted g and_reciprocal)); [reflexivity | discriminate]. }
  rewrite Hc.
  assert (Ha : In a (Dict.keys g)).
  { unfold Dict.get2 in Hedge. destruct (Dict.get a g) eqn:E; [|discriminate].
    eapply get_In_keys. exact E. }
  rewrite (constructed_self_edge g a Hg Ha) in Hedge. injection Hedge as <-.
  reflexivity.
Qed.

(** C2.  In the Price Graph that the constructor returns for a raw nested
    mapping, the sources are the canonical forms of the raw sources, and
    for every source [c] the row [prices(c)] is returned and holds
    [1.0] under [c]. *)
Theorem self_edge_is_one (raw g : Ticker.t) (c : string) :
  Ticker.__init__ raw = Ok g ->
  In c (map normalized_key (Dict.keys raw)) ->
  In c (Dict.keys g)
  /\ exists row,
       Ticker.prices g c = Ok row
       /\ Dict.get c row = Some 1%float
       /\ Counter.getitem row c = 1%float.
Proof.
  intros Hinit Hc. rewrite <- (init_keys raw g Hinit) in Hc.
  split; [exact Hc|].
  assert (Hg : constructed g) by (exists raw; exact Hinit).
  pose proof (constructed_self_edge g c Hg Hc) as Hedge.
  unfold Dict.get2 in Hedge. unfold Ticker.prices, Counter.getitem, Dict.get_or.
  destruct (Dict.get c g) as [row|]; [|discriminate].
  exists row. rewrite Hedge. repeat split.
Qed.

Lemma self_edge_is_one_witness :
  exists g,
    Ticker.__init__
      [("btc", [("usdt", 9000%float)]); ("usdt", [("btc", 0.5%float)])] = Ok g
    /\ exists row,
         Ticker.prices g "USDT" = Ok row /\ Dict.get "USDT" row = Some 1%float.
Proof.
  eexists. split; [reflexivity|].
  destruct (self_edge_is_one
              [("btc", [("usdt", 9000%float)]); ("usdt", [("btc", 0.5%float)])]
              _ "USDT" eq_refl) as (_ & row & Hrow & Hget & _).
  - right. left. reflexivity.
  - exists row. split; [exact Hrow | exact Hget].
Defined.

(** C7, as the specification states it, fails: in the graph built from
    [{"btc": {"usdt": 9000}}] the currency [ETH] is no source, and
    [prices("ETH")] raises [KeyError] where the claim has an empty
    vector. *)
Lemma prices_of_missing_currency_raises :
  exists g,
    Ticker.__init__ [("btc", [("usdt", 9000%float)])] = Ok g
    /\ Dict.contains "ETH" g = false
    /\ Ticker.prices g "ETH" = Raise (KeyError "ETH").
Proof. eexists. by_evaluation. Qed.

(** C7, amended.  For a currency that is no source of a constructed Price
    Graph, [prices] raises the [KeyError] of that currency. *)
Theorem prices_of_missing_currency (raw g : Ticker.t) (c : string) :
  Ticker.__init__ raw = Ok g ->
  ~ In c (Dict.keys g) ->
  Ticker.prices g c = Raise (KeyError c).
Proof.
  intros _ Hc. unfold Ticker.prices.
  apply get_None_iff in Hc. rewrite Hc. reflexivity.
Qed.

Lemma prices_of_missing_currency_witness :
  exists g,
    Ticker.__init__ [("btc", [("usdt", 9000%float)])] = Ok g
    /\ Ticker.prices g "LTC" = Raise (KeyError "LTC").
Proof.
  eexists. split; [reflexivity|].
  apply (prices_of_missing_currency [("btc", [("usdt", 9000%float)])]); [reflexivity|].
  simpl. intros [H|[]]. discriminate.
Defined.

Lemma and_reciprocal_zero p : (p =? 0)%float = true -> and_reciprocal p = p.
Proof. intros H. unfold and_reciprocal, truthy. rewrite H. reflexivity. Qed.

Lemma and_reciprocal_nonzero p :
  (p =? 0)%float = false -> and_reciprocal p = (1 / p)%float.
Proof. intros H. unfold and_reciprocal, truthy. rewrite H. reflexivity. Qed.

(** C5, as the specification states it, fails: the graph built from
    [{"a": {"b": 49.0}}] has the edge [A -> B] of price 49.0, and after two
    inversions that edge has the price [1 / (1 / 49.0)], which in binary64
    is 49.00000000000001. *)
Lemma double_inversion_changes_49 :
  exists g g1 g2,
    Ticker.__init__ [("a", [("b", 49%float)])] = Ok g
    /\ Ticker.inverted g = Ok g1
    /\ Ticker.inverted g1 = Ok g2
    /\ Dict.get2 "A" "B" g = Some 49%float
    /\ Dict.get2 "A" "B" g2 = Some (1 / (1 / 49))%float
    /\ (1 / (1 / 49) =? 49)%float = false.
Proof. do 3 eexists. by_evaluation. Qed.

(** C5, amended.  Inverting a constructed Price Graph, and inverting the
    result, raise nothing.  An edge [a -> b] of price [p] becomes the edge
    [b -> a] of price [p and 1 / p], and after the second inversion the
    edge [a -> b] carries that operation applied twice.  A zero price
    stays the same zero through both inversions; a non-zero price becomes
    [1 / p] and then, [1 / p] being non-zero, the binary64 value of
    [1 / (1 / p)]: the original price exactly when that double reciprocal
    is exact. *)
Theorem double_inversion (g : Ticker.t) :
  constructed g ->
  exists g1 g2,
    Ticker.inverted g = Ok g1
    /\ Ticker.inverted g1 = Ok g2
    /\ forall a b p,
         Dict.get2 a b g = Some p ->
         Dict.get2 b a g1 = Some (and_reciprocal p)
         /\ Dict.get2 a b g2 = Some (and_reciprocal (and_reciprocal p))
         /\ ((p =? 0)%float = true ->
             and_reciprocal p = p /\ and_reciprocal (and_reciprocal p) = p)
         /\ ((p =? 0)%float = false -> and_reciprocal p = (1 / p)%float)
         /\ ((p =? 0)%float = false -> (1 / p =? 0)%float = false ->
             and_reciprocal (and_reciprocal p) = (1 / (1 / p))%float)
         /\ ((p =? 0)%float = false -> (1 / p =? 0)%float = false ->
             (1 / (1 / p))%float = p ->
             Dict.get2 a b g2 = Dict.get2 a b g).
Proof.
  intros Hg.
  destruct (inverted_constructed g Hg) as (g1 & Hrun1 & Hg1 & Hedge1).
  destruct (inverted_constructed g1 Hg1) as (g2 & Hrun2 & _ & Hedge2).
  exists g1, g2. split; [exact Hrun1|]. split; [exact Hrun2|].
  intros a b p Hedge. pose proof (Hedge1 a b p Hedge) as H1.
  pose proof (Hedge2 b a _ H1) as H2.
  split; [exact H1|]. split; [exact H2|]. split; [|split; [|split]].
  - intros Hz. rewrite !(and_reciprocal_zero p Hz). split; reflexivity.
  - apply and_reciprocal_nonzero.
  - intros Hp Hq. rewrite (and_reciprocal_nonzero p Hp).
    apply and_reciprocal_nonzero. exact Hq.
  - intros Hp Hq Hexact. rewrite H2, Hedge.
    rewrite (and_reciprocal_nonzero p Hp), (and_reciprocal_nonzero _ Hq), Hexact.
    reflexivity.
Qed.

Lemma double_inversion_witness :
  constructed [("BTC", [("USDT", 8192%float); ("XMR", 0%float); ("BTC", 1%float)])]
  /\ exists g1 g2,
       Ticker.inverted
         [("BTC", [("USDT", 8192%float); ("XMR", 0%float); ("BTC", 1%float)])]
       = Ok g1
       /\ Ticker.inverted g1 = Ok g2
       /\ Dict.get2 "BTC" "USDT" g2 = Some 8192%float
       /\ Dict.get2 "BTC" "XMR" g2 = Some 0%float.
Proof.
  assert (Hg : constructed
                 [("BTC", [("USDT", 8192%float); ("XMR", 0%float); ("BTC", 1%float)])]).
  { exists [("btc", [("usdt", 8192%float); ("xmr", 0%float)])].
    vm_compute. reflexivity. }
  split; [exact Hg|].
  destruct (double_inversion _ Hg) as (g1 & g2 & H1 & H2 & Hedges).
  exists g1, g2. split; [exact H1|]. split; [exact H2|]. split.
  - assert (E : Dict.get2 "BTC" "USDT"
                  [("BTC", [("USDT", 8192%float); ("XMR", 0%float); ("BTC", 1%float)])]
                = Some 8192%float) by (vm_compute; reflexivity).
    destruct (Hedges _ _ _ E) as (_ & -> & _). vm_compute. reflexivity.
  - assert (E : Dict.get2 "BTC" "XMR"
                  [("BTC", [("USDT", 8192%float); ("XMR", 0%float); ("BTC", 1%float)])]
                = Some 0%float) by (vm_compute; reflexivity).
    destruct (Hedges _ _ _ E) as (_ & -> & _). vm_compute. reflexivity.
Defined.

(** ** Order inversion *)

Section InvertedWf.

Context {A B : Type} (inverter : A -> B).

Lemma wf2_setitem2 (r : Dict.t (Dict.t B)) to from_ y :
  Dict.wf2 r ->
  Dict.wf2 (Dict.setitem to (Dict.setitem from_ y (Dict.get_or to [] r)) r).
Proof.
  intros [Hwf Hrows]. split; [apply wf_setitem; exact Hwf|].
  apply Forall_forall. intros row Hrow.
  apply In_values_setitem in Hrow as [->|Hrow];
    [|exact (proj1 (Forall_forall _ _) Hrows row Hrow)].
  apply wf_setitem.
  destruct (get_or_nil_cases r to) as [->|Hin]; [apply wf_nil|].
  exact (proj1 (Forall_forall _ _) Hrows _ Hin).
Qed.

Lemma wf2_inverted_row from_ (entry : Dict.t A) : forall r : Dict.t (Dict.t B),
  Dict.wf2 r ->
  Dict.wf2
    (fold_left
       (fun result '(to, value) =>
          Dict.setitem to
            (Dict.setitem from_ (inverter value) (Dict.get_or to [] result))
            result)
       entry r).
Proof.
  induction entry as [|[to0 v0] entry IH]; intros r Hr; [exact Hr|].
  cbn [fold_left]. apply IH. apply wf2_setitem2. exact Hr.
Qed.

(** Whatever [inverted] is given, it returns a dict of dicts. *)
Lemma wf2_inverted (d : Dict.t (Dict.t A)) : Dict.wf2 (inverted d inverter).
Proof.
  unfold inverted.
  assert (H : forall r : Dict.t (Dict.t B),
             Dict.wf2 r ->
             Dict.wf2
               (fold_left
                  (fun result '(from_, entry) =>
                     fold_left
                       (fun result '(to, value) =>
                          Dict.setitem to
                            (Dict.setitem from_ (inverter value)
                               (Dict.get_or to [] result))
                            result)
                       entry result)
                  d r)).
  { induction d as [|[from_ entry] d IH]; intros r Hr; [exact Hr|].
    cbn [fold_left]. apply IH. apply wf2_inverted_row. exact Hr. }
  apply H. split; [apply wf_nil | constructor].
Qed.

End InvertedWf.

Lemma get_open_buy_orders (open_orders : ExchangeAPI.orders) src dst :
  Dict.get src (ExchangeAPI.open_buy_orders dst open_orders)
  = Dict.get2 dst src (ExchangeAPI.inverted_orders open_orders).
Proof. unfold ExchangeAPI.open_buy_orders. apply get_get_or. Qed.

(** C8, as the specification states it, fails: the order of amount 1.0 and
    price 49.0 under [BTC -> USDT] comes back from two inversions, under
    [BTC -> USDT] again, with amount [49.0 * (1 / 49.0)], in binary64
    0.9999999999999999, and price [1 / (1 / 49.0)], 49.00000000000001. *)
Lemma double_order_inversion_changes_49 :
  Dict.get2 "BTC" "USDT"
    (ExchangeAPI.inverted_orders
       (ExchangeAPI.inverted_orders
          [("BTC",
            [("USDT",
              [ {| ExchangeAPI.order_id := "42";
                   ExchangeAPI.amount := 1%float;
                   ExchangeAPI.price := 49%float |} ])])]))
  = Some [ {| ExchangeAPI.order_id := "42";
              ExchangeAPI.amount := (49 * (1 / 49))%float;
              ExchangeAPI.price := (1 / (1 / 49))%float |} ]
  /\ (49 * (1 / 49) =? 1)%float = false
  /\ (1 / (1 / 49) =? 49)%float = false.
Proof. by_evaluation. Qed.

(** C8, amended.  Order inversion maps the orders under
    [source -> destination] to the orders under [destination -> source],
    each order [{amount: a, price: p, order_id: id}] becoming
    [{amount: a * p, price: p and 1 / p, order_id: id}] (a zero price kept,
    any other price replaced by [1 / p]); [open_buy_orders] returns the row
    of the destination.  Two inversions bring the orders back under
    [source -> destination] with the identifier unchanged, the amount
    [(a * p) * q] and the price [q and 1 / q], [q] being the inverted
    price: the original order when, for a non-zero [p], these binary64
    operations are exact. *)
Theorem order_inversion
    (open_orders : ExchangeAPI.orders) (src dst : string)
    (l : list ExchangeAPI.order) :
  Dict.wf2 open_orders ->
  Dict.get2 src dst open_orders = Some l ->
  Dict.get2 dst src (ExchangeAPI.inverted_orders open_orders)
    = Some (map ExchangeAPI.invert_order l)
  /\ Dict.get src (ExchangeAPI.open_buy_orders dst open_orders)
     = Some (map ExchangeAPI.invert_order l)
  /\ Dict.get2 src dst
       (ExchangeAPI.inverted_orders (ExchangeAPI.inverted_orders open_orders))
     = Some (map ExchangeAPI.invert_order (map ExchangeAPI.invert_order l))
  /\ (forall o,
        ExchangeAPI.order_id (ExchangeAPI.invert_order o) = ExchangeAPI.order_id o
        /\ ExchangeAPI.amount (ExchangeAPI.invert_order o)
           = (ExchangeAPI.amount o * ExchangeAPI.price o)%float
        /\ ExchangeAPI.price (ExchangeAPI.invert_order o)
           = if (ExchangeAPI.price o =? 0)%float
             then ExchangeAPI.price o
             else (1 / ExchangeAPI.price o)%float)
  /\ (forall o,
        (ExchangeAPI.price o =? 0)%float = false ->
        (1 / ExchangeAPI.price o =? 0)%float = false ->
        (ExchangeAPI.amount o * ExchangeAPI.price o * (1 / ExchangeAPI.price o))%float
          = ExchangeAPI.amount o ->
        (1 / (1 / ExchangeAPI.price o))%float = ExchangeAPI.price o ->
        ExchangeAPI.invert_order (ExchangeAPI.invert_order o) = o).
Proof.
  intros Hwf Hl.
  assert (H1 : Dict.get2 dst src (ExchangeAPI.inverted_orders open_orders)
               = Some (map ExchangeAPI.invert_order l)).
  { unfold ExchangeAPI.inverted_orders.
    rewrite (get2_inverted _ open_orders src dst Hwf), Hl. reflexivity. }
  split; [exact H1|]. split; [rewrite get_open_buy_orders; exact H1|].
  split; [|split].
  - etransitivity;
      [exact (get2_inverted (map ExchangeAPI.invert_order)
                (ExchangeAPI.inverted_orders open_orders) dst src
                (wf2_inverted _ _))|].
    rewrite H1. reflexivity.
  - intros o. repeat split. simpl. unfold and_reciprocal, truthy.
    destruct (ExchangeAPI.price o =? 0)%float; reflexivity.
  - intros [id a p]. simpl. intros Hp Hq Ha Hpp.
    unfold ExchangeAPI.invert_order. simpl.
    rewrite (and_reciprocal_nonzero p Hp), (and_reciprocal_nonzero _ Hq), Ha, Hpp.
    reflexivity.
Qed.

Lemma order_inversion_witness :
  Dict.get2 "BTC" "USDT"
    (ExchangeAPI.inverted_orders
       (ExchangeAPI.inverted_orders
          [("BTC",
            [("USDT",
              [ {| ExchangeAPI.order_id := "42";
                   ExchangeAPI.amount := 3%float;
                   ExchangeAPI.price := 8192%float |} ])])]))
  = Some [ {| ExchangeAPI.order_id := "42";
              ExchangeAPI.amount := 3%float;
              ExchangeAPI.price := 8192%float |} ].
Proof.
  assert (Hwf : Dict.wf2
            [("BTC",
              [("USDT",
                [ {| ExchangeAPI.order_id := "42";
                     ExchangeAPI.amount := 3%float;
                     ExchangeAPI.price := 8192%float |} ])])]).
  { split; [|repeat constructor; simpl; tauto].
    unfold Dict.wf. simpl. repeat constructor. simpl. tauto. }
  destruct (order_inversion _ "BTC" "USDT" _ Hwf eq_refl)
    as (_ & _ & Htwice & _ & Hexact).
  rewrite Htwice. simpl map.
  rewrite Hexact; [reflexivity | | | |]; vm_compute; reflexivity.
Defined.

(** * Further properties of the code *)

(** ** Comprehensions and filters *)

Lemma fold_setitem_fresh {V} (l : list (string * V)) : forall acc,
  Dict.wf (acc ++ l) ->
  fold_left (fun d '(k, v) => Dict.setitem k v d) l acc = acc ++ l.
Proof.
  induction l as [|[k v] l IH]; intros acc Hwf; cbn [fold_left].
  - rewrite app_nil_r. reflexivity.
  - assert (Hout : ~ In k (Dict.keys acc)).
    { unfold Dict.wf in Hwf. rewrite keys_app in Hwf. simpl in Hwf.
      apply NoDup_remove_2 in Hwf. intros Hin. apply Hwf.
      apply in_or_app. left. exact Hin. }
    rewrite (setitem_absent _ _ _ Hout).
    rewrite IH; rewrite <- app_assoc; [reflexivity | exact Hwf].
Qed.

(** A comprehension over items with distinct keys stores them as they
    come. *)
Lemma dict_of_items_wf {V} (l : list (string * V)) :
  Dict.wf l -> dict_of_items l = l.
Proof. intros H. apply (fold_setitem_fresh l []). exact H. Qed.

Lemma In_keys_filter {V} (f : string * V -> bool) (d : Dict.t V) k :
  In k (Dict.keys (filter f d)) -> In k (Dict.keys d).
Proof.
  unfold Dict.keys. intros H. apply in_map_iff in H as (kv & <- & Hin).
  apply filter_In in Hin as [Hin _]. apply in_map. exact Hin.
Qed.

Lemma wf_filter {V} (f : string * V -> bool) (d : Dict.t V) :
  Dict.wf d -> Dict.wf (filter f d).
Proof.
  unfold Dict.wf. induction d as [|[k v] d IH]; simpl; intros H; [constructor|].
  inversion H as [|? ? Hout Hd]; subst.
  destruct (f (k, v)); [|apply IH; exact Hd].
  simpl. constructor; [|apply IH; exact Hd].
  intros Hin. apply Hout. eapply In_keys_filter. exact Hin.
Qed.

Lemma get_filter_key {V} (p : string -> bool) (d : Dict.t V) k :
  Dict.get k (filter (fun '(k, v) => p k) d)
  = if p k then Dict.get k d else None.
Proof.
  induction d as [|[k0 v0] d IH]; cbn [filter Dict.get];
    [destruct (p k); reflexivity|].
  destruct (p k0) eqn:E0; cbn [Dict.get]; rewrite IH;
    destruct (String.eqb_spec k0 k) as [->|Hne];
    try rewrite E0; reflexivity.
Qed.

Lemma py_in_iff k keys : py_in k keys = true <-> In k keys.
Proof.
  unfold py_in. rewrite existsb_exists. split.
  - intros (x & Hx & E). apply String.eqb_eq in E. subst. exact Hx.
  - intros H. exists k. split; [exact H | apply String.eqb_refl].
Qed.

(** ** [Balance.project] and [Balance.excluding] *)

(** X1.  [project] keeps the amounts of the given currencies and
    [excluding] the amounts of all others: every currency of the vector
    is in exactly one of the two, with its amount, and a currency that
    the vector lacks is in neither. *)
Theorem project_excluding_split (b : Balance.t) (keys : list string) :
  Dict.wf b ->
  Dict.wf (Balance.project b keys)
  /\ Dict.wf (Balance.excluding b keys)
  /\ (forall k,
        Dict.get k (Balance.project b keys)
        = if py_in k keys then Dict.get k b else None)
  /\ (forall k,
        Dict.get k (Balance.excluding b keys)
        = if py_in k keys then None else Dict.get k b)
  /\ (forall k v,
        Dict.get k b = Some v ->
        (Dict.get k (Balance.project b keys) = Some v
         /\ Dict.get k (Balance.excluding b keys) = None)
        \/ (Dict.get k (Balance.project b keys) = None
            /\ Dict.get k (Balance.excluding b keys) = Some v)).
Proof.
  intros Hwf. unfold Balance.project, Balance.excluding.
  rewrite !dict_of_items_wf by (apply wf_filter; exact Hwf).
  assert (Hp : forall k,
             Dict.get k (filter (fun '(k, _) => py_in k keys) b)
             = if py_in k keys then Dict.get k b else None).
  { intros k. apply (get_filter_key (fun k => py_in k keys)). }
  assert (He : forall k,
             Dict.get k (filter (fun '(k, _) => negb (py_in k keys)) b)
             = if py_in k keys then None else Dict.get k b).
  { intros k. rewrite (get_filter_key (fun k => negb (py_in k keys))).
    destruct (py_in k keys); reflexivity. }
  split; [apply wf_filter; exact Hwf|]. split; [apply wf_filter; exact Hwf|].
  split; [exact Hp|]. split; [exact He|].
  intros k v Hk. rewrite Hp, He, Hk. destruct (py_in k keys); auto.
Qed.

Lemma project_excluding_split_witness :
  Dict.get "BTC" (Balance.project [("BTC", 2%float); ("ETH", 3%float)] ["BTC"])
  = Some 2%float
  /\ Dict.get "ETH" (Balance.excluding [("BTC", 2%float); ("ETH", 3%float)] ["BTC"])
     = Some 3%float.
Proof.
  assert (Hwf : Dict.wf [("BTC", 2%float); ("ETH", 3%float)]).
  { unfold Dict.wf. simpl. repeat constructor; simpl; intuition discriminate. }
  destruct (project_excluding_split [("BTC", 2%float); ("ETH", 3%float)] ["BTC"] Hwf)
    as (_ & _ & Hp & He & _).
  rewrite Hp, He. split; reflexivity.
Defined.

(** ** More on the key normaliser *)

(** X2.  Without an aggregator the normaliser succeeds exactly when the
    canonical forms of the keys are pairwise distinct, and it then
    returns the canonical keys in the order of the raw keys, each with
    the value of its raw key. *)
Theorem normalize_succeeds_iff_no_collision :
  forall (V : Type) (d : Dict.t V),
    (NoDup (map normalized_key (Dict.keys d))
     <-> exists r, normalize_keys None d = Ok r)
    /\ (forall r,
          normalize_keys None d = Ok r ->
          Dict.keys r = map normalized_key (Dict.keys d)
          /\ Dict.values r = Dict.values d).
Proof.
  intros V d. split; [split|].
  - intros Hnd. exists (rekey d). apply normalize_keys_None_complete.
    unfold Dict.wf. rewrite keys_rekey. exact Hnd.
  - intros [r Hr]. apply normalize_keys_None_ok in Hr as [-> Hwf].
    unfold Dict.wf in Hwf. rewrite keys_rekey in Hwf. exact Hwf.
  - intros r Hr. apply normalize_keys_None_ok in Hr as [-> _].
    split; [apply keys_rekey | apply values_rekey].
Qed.

Lemma row_normal_collect {V} (d : Dict.t V) : row_normal (normalize_collect d).
Proof.
  unfold normalize_collect.
  assert (H : forall acc : Dict.t (list V),
             row_normal acc ->
             row_normal
               (fold_left
                  (fun result '(key, value) =>
                     let key := normalized_key key in
                     Dict.setitem key (Dict.get_or key [] result ++ [value]) result)
                  d acc)).
  { induction d as [|[k v] d IH]; intros acc Hacc; [exact Hacc|].
    cbn [fold_left]. apply IH. apply row_normal_setitem;
      [apply normalized_key_canonical | exact Hacc]. }
  apply H. apply row_normal_nil.
Qed.

Lemma raw_values_nil_inv {V} key (d : Dict.t V) :
  raw_values key d = [] ->
  forall k, In k (Dict.keys d) -> normalized_key k <> key.
Proof.
  induction d as [|[k0 v0] d IH]; intros H k Hk; [destruct Hk|].
  rewrite raw_values_cons in H.
  destruct (String.eqb_spec (normalized_key k0) key) as [E|Hne]; [discriminate|].
  destruct Hk as [<-|Hk]; [exact Hne | apply IH; assumption].
Qed.

(** X3.  With an aggregator the normaliser never raises, whatever the
    keys; the dict it returns has distinct, canonical keys, exactly the
    canonical forms of the raw keys, so that the strict normaliser
    (without aggregator) accepts it and returns it unchanged. *)
Theorem aggregated_result_is_normal :
  forall (V : Type) (agg : list V -> V) (d : Dict.t V),
  exists r,
    normalize_keys (Some agg) d = Ok r
    /\ Dict.wf r
    /\ Forall canonical (Dict.keys r)
    /\ (forall key,
          In key (Dict.keys r) <-> In key (map normalized_key (Dict.keys d)))
    /\ normalize_keys None r = Ok r.
Proof.
  intros V agg d. eexists. split; [reflexivity|].
  set (r := map (fun '(key, values) => (key, agg values)) (normalize_collect d)).
  assert (Hkeys : Dict.keys r = Dict.keys (normalize_collect d)).
  { unfold r, Dict.keys. rewrite map_map. apply map_ext. intros [k l]. reflexivity. }
  destruct (row_normal_collect d) as [Hwf Hcan].
  assert (Hwfr : Dict.wf r) by (unfold Dict.wf; rewrite Hkeys; exact Hwf).
  assert (Hcanr : Forall canonical (Dict.keys r)) by (rewrite Hkeys; exact Hcan).
  split; [exact Hwfr|]. split; [exact Hcanr|]. split.
  - intros key. rewrite Hkeys, In_keys_iff_get, get_normalize_collect. split.
    + intros H. destruct (raw_values key d) as [|v vs] eqn:E; [contradiction|].
      destruct (in_dec string_dec key (map normalized_key (Dict.keys d)))
        as [Hin|Hout]; [exact Hin|].
      exfalso. rewrite raw_values_none in E; [discriminate|].
      intros k Hk Ek. apply Hout. rewrite <- Ek. apply in_map. exact Hk.
    + intros Hin. apply in_map_iff in Hin as (k & Ek & Hk).
      destruct (raw_values key d) as [|v vs] eqn:E; [|discriminate].
      exfalso. exact (raw_values_nil_inv key d E k Hk Ek).
  - apply normalize_keys_None_fixed; assumption.
Qed.

(** X4.  Every spelling listed in a group of the alias table is
    normalised to the canonical code of that group. *)
Theorem synonyms_share_canonical_key :
  forall (synonyms : list string) (code spelling : string),
    In (synonyms, code) ALIASES ->
    In spelling synonyms ->
    normalized_key spelling = code.
Proof.
  intros synonyms code spelling Hgroup Hs. unfold ALIASES in Hgroup.
  repeat (destruct Hgroup as [[= <- <-]|Hgroup];
          [repeat (destruct Hs as [<-|Hs]; [vm_compute; reflexivity|]);
           destruct Hs|]).
  destruct Hgroup.
Qed.

Lemma synonyms_share_canonical_key_witness :
  normalized_key "Bitcoin Cash (BCH)" = "BCH" /\ normalized_key "BCC" = "BCH".
Proof.
  assert (Hg : In (["BCC"; "BCH"; "Bitcoin Cash (BCH)"], "BCH") ALIASES)
    by (left; reflexivity).
  split.
  - apply (synonyms_share_canonical_key _ _ _ Hg). right. right. left. reflexivity.
  - apply (synonyms_share_canonical_key _ _ _ Hg). left. reflexivity.
Defined.

(** X5.  A key that is not itself a spelling of the alias table is
    normalised without regard to case: it has the canonical key of its
    upper-cased form. *)
Theorem normalized_key_ignores_case (k : string) :
  Dict.get k _ALIASES_FLATTENED = None ->
  normalized_key k = normalized_key (upper k).
Proof.
  intros Hk. unfold normalized_key. rewrite Hk, upper_idempotent.
  destruct (Dict.get (upper k) _ALIASES_FLATTENED) as [t|] eqn:E; [|reflexivity].
  destruct (or_else_alias _ _ (upper k) E) as [E1 _].
  destruct (or_else_alias _ _ (or_else (Some t) (upper k)) E) as [E2 _].
  rewrite E2. exact E1.
Qed.

Lemma normalized_key_ignores_case_witness :
  normalized_key "dsh" = normalized_key "DSH".
Proof. apply (normalized_key_ignores_case "dsh"). vm_compute. reflexivity. Defined.

(** ** [Balance]: scaling and sums *)

Lemma scale_loop (x : float) (ks : list string) : forall (result : Balance.t) k,
  NoDup ks ->
  Dict.get k
    (fold_left
       (fun result key =>
          Dict.setitem key (Dict.get_or key 0 result * x)%float result)
       ks result)
  = if in_dec string_dec k ks
    then Some (Dict.get_or k 0 result * x)%float
    else Dict.get k result.
Proof.
  induction ks as [|k0 ks IH]; intros result k Hnd; cbn [fold_left]; [reflexivity|].
  inversion Hnd as [|? ? Hout Hnd']; subst. rewrite (IH _ _ Hnd').
  unfold Dict.get_or. rewrite get_setitem.
  destruct (String.eqb_spec k0 k) as [->|Hne].
  - destruct (in_dec string_dec k ks) as [Hin|_]; [contradiction|].
    destruct (in_dec string_dec k (k :: ks)) as [_|Hno]; [reflexivity|].
    exfalso. apply Hno. left. reflexivity.
  - destruct (in_dec string_dec k ks) as [Hin|Hno];
      destruct (in_dec string_dec k (k0 :: ks)) as [Hin'|Hno']; try reflexivity.
    + exfalso. apply Hno'. right. exact Hin.
    + destruct Hin' as [E|Hin']; contradiction.
Qed.

Lemma scale_loop_keys (x : float) (ks : list string) : forall (result : Balance.t),
  (forall k, In k ks -> In k (Dict.keys result)) ->
  Dict.keys
    (fold_left
       (fun result key =>
          Dict.setitem key (Dict.get_or key 0 result * x)%float result)
       ks result)
  = Dict.keys result.
Proof.
  induction ks as [|k0 ks IH]; intros result Hin; cbn [fold_left]; [reflexivity|].
  assert (Hk0 : In k0 (Dict.keys result)) by (apply Hin; left; reflexivity).
  rewrite IH.
  - apply keys_setitem_present. exact Hk0.
  - intros k Hk. rewrite keys_setitem_present by exact Hk0. apply Hin. right. exact Hk.
Qed.

(** X6.  Multiplying an Amount Vector by a number keeps its currencies,
    in their order, and multiplies every amount by the number; an operand
    that is neither a vector nor a number makes [*] raise
    [NotImplementedError], on either side. *)
Theorem scale_multiplies_every_amount (self : Balance.t) (x : float) :
  Dict.wf self ->
  (exists r,
     Balance.__mul__ self (Balance.OfNumber x) = Ok r
     /\ Balance.__rmul__ self (Balance.OfNumber x) = Ok r
     /\ Dict.keys r = Dict.keys self
     /\ forall k, Dict.get k r = option_map (fun v => (v * x)%float) (Dict.get k self))
  /\ Balance.__mul__ self Balance.OfOther = Raise NotImplementedError
  /\ Balance.__rmul__ self Balance.OfOther = Raise NotImplementedError.
Proof.
  intros Hwf. split; [|split; reflexivity].
  eexists. split; [reflexivity|]. split; [reflexivity|]. split.
  - apply scale_loop_keys. auto.
  - intros k. rewrite (scale_loop x _ _ _ Hwf). unfold Dict.get_or.
    destruct (in_dec string_dec k (Dict.keys self)) as [Hin|Hout].
    + apply In_keys_get in Hin as [v ->]. reflexivity.
    + apply get_None_iff in Hout. rewrite Hout. reflexivity.
Qed.

Lemma scale_multiplies_every_amount_witness :
  exists r,
    Balance.__mul__ [("BTC", 2%float); ("ETH", 3%float)] (Balance.OfNumber 1.5%float)
    = Ok r
    /\ Dict.get "ETH" r = Some 4.5%float.
Proof.
  assert (Hwf : Dict.wf [("BTC", 2%float); ("ETH", 3%float)]).
  { unfold Dict.wf. simpl. repeat constructor; simpl; intuition discriminate. }
  destruct (scale_multiplies_every_amount _ 1.5%float Hwf)
    as [(r & Hr & _ & _ & Hget) _].
  exists r. split; [exact Hr|]. rewrite Hget. vm_compute. reflexivity.
Defined.

(** X7.  A sum of two Amount Vectors holds strictly positive amounts
    only, whatever the operands hold. *)
Theorem sum_holds_positive_amounts (u v : Balance.t) (k : string) (c : float) :
  Dict.wf u -> Dict.wf v ->
  Dict.get k (Balance.__add__ u v) = Some c ->
  (0 <? c)%float = true.
Proof.
  intros Hu Hv. unfold Balance.__add__. rewrite (get_counter_add u v k Hu Hv).
  destruct (Dict.get k u) as [cu|].
  - destruct (0 <? cu + Counter.getitem v k)%float eqn:E; [|discriminate].
    intros [= <-]. exact E.
  - destruct (Dict.get k v) as [cv|]; [|discriminate].
    destruct (0 <? cv)%float eqn:E; [|discriminate].
    intros [= <-]. exact E.
Qed.

Lemma sum_holds_positive_amounts_witness :
  (0 <? 1.75)%float = true.
Proof.
  apply (sum_holds_positive_amounts
           [("BTC", 1.5%float); ("ETH", (-2)%float)]
           [("BTC", 0.25%float); ("ETH", 1%float)] "BTC").
  - unfold Dict.wf. simpl. repeat constructor; simpl; intuition discriminate.
  - unfold Dict.wf. simpl. repeat constructor; simpl; intuition discriminate.
  - vm_compute. reflexivity.
Defined.

(** ** [Ticker.increased_by_fee] *)

Lemma get_map_snd {A B} (h : string -> A -> B) (d : Dict.t A) k :
  Dict.get k (map (fun '(k, x) => (k, h k x)) d)
  = option_map (h k) (Dict.get k d).
Proof.
  induction d as [|[k0 x0] d IH]; simpl; [reflexivity|].
  destruct (String.eqb_spec k0 k) as [->|_]; [reflexivity | exact IH].
Qed.

Lemma get2_increased_by_fee (g : Ticker.t) (fee : float) a b :
  Dict.wf2 g ->
  Dict.get2 a b (Ticker.increased_by_fee g fee)
  = option_map
      (fun p => if b =? a then p else (p * Ticker.effective_fee fee)%float)
      (Dict.get2 a b g).
Proof.
  intros [Hwf Hrows]. unfold Ticker.increased_by_fee, Dict.get2.
  rewrite (get_fold_setitem (fun _ _ => true)
             (fun outer_key (entry : Dict.t float) =>
                fold_left
                  (fun new_entry '(inner_key, value) =>
                     if inner_key =? outer_key
                     then Dict.setitem inner_key value new_entry
                     else Dict.setitem inner_key
                            (value * Ticker.effective_fee fee)%float new_entry)
                  entry []));
    [|reflexivity | exact Hwf].
  destruct (Dict.get a g) as [entry|] eqn:E; [|reflexivity].
  assert (Hentry : Dict.wf entry).
  { apply get_In_values in E. exact (proj1 (Forall_forall _ _) Hrows entry E). }
  rewrite (get_fold_setitem (fun _ _ => true)
             (fun inner_key value =>
                if inner_key =? a then value
                else (value * Ticker.effective_fee fee)%float));
    [|intros r k v; destruct (k =? a); reflexivity | exact Hentry].
  destruct (Dict.get b entry); reflexivity.
Qed.

(** X8.  Scaling a constructed Price Graph by a fee keeps its sources,
    leaves every self-edge at 1.0 and multiplies every other price by the
    effective fee, which is [fee + 1] for a fee below 1 and the fee itself
    otherwise; no edge appears or disappears. *)
Theorem fee_scales_all_but_self_edges (g : Ticker.t) (fee : float) :
  constructed g ->
  (forall c, In c (Dict.keys (Ticker.increased_by_fee g fee)) <-> In c (Dict.keys g))
  /\ (forall c,
        In c (Dict.keys g) ->
        Dict.get2 c c (Ticker.increased_by_fee g fee) = Some 1%float)
  /\ (forall a b,
        a <> b ->
        Dict.get2 a b (Ticker.increased_by_fee g fee)
        = option_map
            (fun p => (p * (if (fee <? 1)%float then (fee + 1)%float else fee))%float)
            (Dict.get2 a b g)).
Proof.
  intros Hg. pose proof (normal2_wf2 g (constructed_normal2 g Hg)) as Hwf.
  split; [|split].
  - intros c. split.
    + intros Hc. apply In_keys_get in Hc as [row Hrow].
      pose proof (get2_increased_by_fee g fee c c Hwf) as H.
      unfold Ticker.increased_by_fee in Hrow.
      rewrite (get_fold_setitem (fun _ _ => true)
                 (fun outer_key (entry : Dict.t float) =>
                    fold_left
                      (fun new_entry '(inner_key, value) =>
                         if inner_key =? outer_key
                         then Dict.setitem inner_key value new_entry
                         else Dict.setitem inner_key
                                (value * Ticker.effective_fee fee)%float new_entry)
                      entry [])) in Hrow;
        [|reflexivity | exact (proj1 Hwf)].
      destruct (Dict.get c g) eqn:E; [|discriminate]. eapply get_In_keys. exact E.
    + intros Hc. pose proof (constructed_self_edge g c Hg Hc) as Hedge.
      pose proof (get2_increased_by_fee g fee c c Hwf) as H.
      rewrite Hedge in H. unfold Dict.get2 in H.
      destruct (Dict.get c (Ticker.increased_by_fee g fee)) eqn:E; [|discriminate].
      eapply get_In_keys. exact E.
  - intros c Hc. rewrite (get2_increased_by_fee g fee c c Hwf).
    rewrite (constructed_self_edge g c Hg Hc). simpl.
    rewrite String.eqb_refl. reflexivity.
  - intros a b Hne. rewrite (get2_increased_by_fee g fee a b Hwf).
    destruct (Dict.get2 a b g); [|reflexivity]. simpl.
    destruct (String.eqb_spec b a) as [->|_]; [contradiction | reflexivity].
Qed.

Lemma fee_scales_all_but_self_edges_witness :
  Dict.get2 "BTC" "USDT"
    (Ticker.increased_by_fee
       [("BTC", [("USDT", 8192%float); ("BTC", 1%float)])] 0.5%float)
  = Some 12288%float
  /\ Dict.get2 "BTC" "BTC"
       (Ticker.increased_by_fee
          [("BTC", [("USDT", 8192%float); ("BTC", 1%float)])] 0.5%float)
     = Some 1%float.
Proof.
  assert (Hg : constructed [("BTC", [("USDT", 8192%float); ("BTC", 1%float)])]).
  { exists [("btc", [("usdt", 8192%float)])]. vm_compute. reflexivity. }
  destruct (fee_scales_all_but_self_edges _ 0.5%float Hg) as (_ & Hself & Hother).
  split.
  - rewrite (Hother "BTC" "USDT") by discriminate. vm_compute. reflexivity.
  - apply Hself. left. reflexivity.
Defined.

(** ** [Ticker.projected] *)

(** The nested comprehension of [projected], as a filter of the rows and
    of their entries. *)
Definition restricted (g : Ticker.t) (accepted_keys : list string) : Ticker.t :=
  map
    (fun '(currency, prices) =>
       (currency, filter (fun '(currency, price) => py_in currency accepted_keys) prices))
    (filter (fun '(currency, prices) => py_in currency accepted_keys) g).

Lemma keys_restricted g acc :
  Dict.keys (restricted g acc)
  = Dict.keys (filter (fun '(currency, prices) => py_in currency acc) g).
Proof.
  unfold restricted, Dict.keys. rewrite map_map. apply map_ext.
  intros [k row]. reflexivity.
Qed.

Lemma Forall_keys_filter {V} (P : string -> Prop) (f : string * V -> bool)
    (d : Dict.t V) :
  Forall P (Dict.keys d) -> Forall P (Dict.keys (filter f d)).
Proof.
  intros H. apply Forall_forall. intros k Hk. apply In_keys_filter in Hk.
  exact (proj1 (Forall_forall _ _) H k Hk).
Qed.

Lemma row_normal_filter {V} (f : string * V -> bool) (d : Dict.t V) :
  row_normal d -> row_normal (filter f d).
Proof.
  intros [Hwf Hcan]. split; [apply wf_filter | apply Forall_keys_filter]; assumption.
Qed.

Lemma normal2_restricted g acc : normal2 g -> normal2 (restricted g acc).
Proof.
  intros [Hg Hrows]. split.
  - split.
    + unfold Dict.wf. rewrite keys_restricted. apply wf_filter. exact (proj1 Hg).
    + rewrite keys_restricted. apply Forall_keys_filter. exact (proj2 Hg).
  - apply Forall_forall. intros row Hrow. unfold restricted, Dict.values in Hrow.
    apply in_map_iff in Hrow as ([k r] & <- & Hin).
    apply in_map_iff in Hin as ([k' r'] & [= <- <-] & Hin).
    apply filter_In in Hin as [Hin _]. simpl.
    apply row_normal_filter. apply (in_map snd) in Hin.
    exact (proj1 (Forall_forall _ _) Hrows r' Hin).
Qed.

Lemma projected_comprehension g acc :
  Dict.wf2 g ->
  dict_of_items
    (map
       (fun '(currency, prices) =>
          (currency,
           dict_of_items
             (filter (fun '(currency, price) => py_in currency acc) prices)))
       (filter (fun '(currency, prices) => py_in currency acc) g))
  = restricted g acc.
Proof.
  intros [Hwf Hrows].
  assert (E : map
                (fun '(currency, prices) =>
                   (currency,
                    dict_of_items
                      (filter (fun '(currency, price) => py_in currency acc) prices)))
                (filter (fun '(currency, prices) => py_in currency acc) g)
              = restricted g acc).
  { unfold restricted. apply map_ext_in. intros [k row] Hin.
    apply filter_In in Hin as [Hin _]. apply (in_map snd) in Hin.
    rewrite dict_of_items_wf; [reflexivity|]. apply wf_filter.
    exact (proj1 (Forall_forall _ _) Hrows row Hin). }
  rewrite E. apply dict_of_items_wf.
  unfold Dict.wf. rewrite keys_restricted. apply wf_filter. exact Hwf.
Qed.

Lemma get_restricted g acc a :
  Dict.get a (restricted g acc)
  = if py_in a acc
    then option_map
           (filter (fun '(currency, price) => py_in currency acc))
           (Dict.get a g)
    else None.
Proof.
  unfold restricted.
  etransitivity;
    [exact (get_map_snd
              (fun _ prices =>
                 filter (fun '(currency, price) => py_in currency acc) prices)
              _ a)|].
  etransitivity;
    [apply f_equal; exact (get_filter_key (fun k => py_in k acc) g a)|].
  destruct (py_in a acc); reflexivity.
Qed.

Lemma get2_restricted g acc a b :
  Dict.get2 a b (restricted g acc)
  = if py_in a acc && py_in b acc then Dict.get2 a b g else None.
Proof.
  unfold Dict.get2. rewrite get_restricted.
  destruct (py_in a acc); simpl; [|reflexivity].
  destruct (Dict.get a g) as [row|]; simpl; [|destruct (py_in b acc); reflexivity].
  exact (get_filter_key (fun k => py_in k acc) row b).
Qed.

(** What [projected] returns on a constructed graph, and its sources. *)
Lemma projected_run g acc :
  constructed g ->
  Ticker.projected g acc = Ok (Ticker._add_self_prices (restricted g acc))
  /\ normal2 (restricted g acc)
  /\ (forall c,
        In c (Dict.keys (restricted g acc)) <-> In c (Dict.keys g) /\ In c acc).
Proof.
  intros Hg. pose proof (constructed_normal2 g Hg) as Hn.
  pose proof (normal2_restricted g acc Hn) as Hn'.
  split; [|split; [exact Hn'|]].
  - unfold Ticker.projected.
    rewrite (projected_comprehension g acc (normal2_wf2 g Hn)).
    apply init_normal2. exact Hn'.
  - intros c. rewrite !In_keys_iff_get, get_restricted, <- py_in_iff.
    destruct (py_in c acc); destruct (Dict.get c g); simpl;
      intuition congruence.
Qed.

(** X9.  Restricting a constructed Price Graph to a set of currencies
    raises nothing and returns a Price Graph that holds exactly the edges
    of the graph whose source and destination are both accepted, with
    their prices; the accepted sources keep their self-edges. *)
Theorem projected_keeps_accepted_edges (g : Ticker.t) (accepted_keys : list string) :
  constructed g ->
  exists g',
    Ticker.projected g accepted_keys = Ok g'
    /\ constructed g'
    /\ (forall a b,
          Dict.get2 a b g'
          = if py_in a accepted_keys && py_in b accepted_keys
            then Dict.get2 a b g
            else None)
    /\ (forall c,
          In c (Dict.keys g') <-> In c (Dict.keys g) /\ In c accepted_keys).
Proof.
  intros Hg. destruct (projected_run g accepted_keys Hg) as (Hrun & Hn' & Hkeys).
  exists (Ticker._add_self_prices (restricted g accepted_keys)).
  split; [exact Hrun|]. split; [|split].
  - exists (restricted g accepted_keys). apply init_normal2. exact Hn'.
  - intros a b. rewrite get2_add_self_prices by exact (proj1 (proj1 Hn')).
    rewrite get2_restricted.
    destruct (String.eqb_spec a b) as [<-|Hne]; [|reflexivity].
    destruct (Dict.contains a (restricted g accepted_keys)) eqn:Hc.
    + apply contains_true_iff, Hkeys in Hc as [Hsrc Hacc].
      apply py_in_iff in Hacc. rewrite Hacc. simpl.
      symmetry. apply constructed_self_edge; assumption.
    + apply contains_false_iff in Hc.
      destruct (py_in a accepted_keys) eqn:Hacc; simpl; [|reflexivity].
      destruct (Dict.get2 a a g) eqn:E; [|reflexivity].
      exfalso. apply Hc, Hkeys. split; [|apply py_in_iff; exact Hacc].
      unfold Dict.get2 in E. destruct (Dict.get a g) eqn:E'; [|discriminate].
      eapply get_In_keys. exact E'.
  - intros c. rewrite keys_add_self_prices. apply Hkeys.
Qed.

Lemma projected_keeps_accepted_edges_witness :
  exists g',
    Ticker.projected
      [("BTC", [("USDT", 8192%float); ("ETH", 16%float); ("BTC", 1%float)])]
      ["BTC"; "ETH"]
    = Ok g'
    /\ Dict.get2 "BTC" "ETH" g' = Some 16%float
    /\ Dict.get2 "BTC" "USDT" g' = None.
Proof.
  assert (Hg : constructed
                 [("BTC", [("USDT", 8192%float); ("ETH", 16%float); ("BTC", 1%float)])]).
  { exists [("btc", [("usdt", 8192%float); ("eth", 16%float)])]. vm_compute. reflexivity. }
  destruct (projected_keeps_accepted_edges _ ["BTC"; "ETH"] Hg)
    as (g' & Hrun & _ & Hedges & _).
  exists g'. split; [exact Hrun|]. rewrite !Hedges. split; vm_compute; reflexivity.
Defined.

(** X10.  The accepted currencies are compared as they are written, not
    normalised: when none of them is in canonical form, the restriction of
    a constructed Price Graph is the empty graph. *)
Theorem projected_compares_keys_verbatim (g : Ticker.t) (accepted_keys : list string) :
  constructed g ->
  Forall (fun k => normalized_key k <> k) accepted_keys ->
  Ticker.projected g accepted_keys = Ok [].
Proof.
  intros Hg Hraw.
  destruct (projected_run g accepted_keys Hg) as (Hrun & _ & Hkeys).
  rewrite Hrun.
  assert (E : restricted g accepted_keys = []).
  { destruct (restricted g accepted_keys) as [|[k row] rest] eqn:E; [reflexivity|].
    exfalso.
    destruct (proj1 (Hkeys k) (or_introl eq_refl)) as [Hsrc Hacc].
    destruct (constructed_normal2 g Hg) as [[_ Hcan] _].
    exact (proj1 (Forall_forall _ _) Hraw k Hacc
             (proj1 (Forall_forall _ _) Hcan k Hsrc)). }
  rewrite E. reflexivity.
Qed.

Lemma projected_compares_keys_verbatim_witness :
  Ticker.projected
    [("BTC", [("USDT", 8192%float); ("BTC", 1%float)])] ["btc"; "usdt"]
  = Ok [].
Proof.
  apply projected_compares_keys_verbatim.
  - exists [("btc", [("usdt", 8192%float)])]. vm_compute. reflexivity.
  - repeat constructor; vm_compute; discriminate.
Defined.

(** ** The rows of the transpose; sell prices and costs *)

Lemma setitem_not_nil {V} k (v : V) (d : Dict.t V) : Dict.setitem k v d <> [].
Proof.
  destruct d as [|[k0 v0] d]; simpl; [discriminate|].
  destruct (k0 =? k); discriminate.
Qed.

Section InvertedKeys.

Context {A B : Type} (inverter : A -> B).

(** [inverted] builds no empty row. *)
Lemma inverted_rows_nonempty (d : Dict.t (Dict.t A)) :
  Forall (fun row => row <> []) (Dict.values (inverted d inverter)).
Proof.
  unfold inverted.
  assert (Hstep : forall (r : Dict.t (Dict.t B)) to from_ y,
             Forall (fun row => row <> []) (Dict.values r) ->
             Forall (fun row => row <> [])
               (Dict.values
                  (Dict.setitem to
                     (Dict.setitem from_ y (Dict.get_or to [] r)) r))).
  { intros r to from_ y Hr. apply Forall_forall. intros row Hrow.
    apply In_values_setitem in Hrow as [->|Hrow];
      [apply setitem_not_nil | exact (proj1 (Forall_forall _ _) Hr row Hrow)]. }
  assert (Hrow : forall from_ (entry : Dict.t A) (r : Dict.t (Dict.t B)),
             Forall (fun row => row <> []) (Dict.values r) ->
             Forall (fun row => row <> [])
               (Dict.values
                  (fold_left
                     (fun result '(to, value) =>
                        Dict.setitem to
                          (Dict.setitem from_ (inverter value)
                             (Dict.get_or to [] result))
                          result)
                     entry r))).
  { intros from_ entry. induction entry as [|[to v] entry IH]; intros r Hr; [exact Hr|].
    cbn [fold_left]. apply IH. apply Hstep. exact Hr. }
  assert (H : forall (r : Dict.t (Dict.t B)),
             Forall (fun row => row <> []) (Dict.values r) ->
             Forall (fun row => row <> [])
               (Dict.values
                  (fold_left
                     (fun result '(from_, entry) =>
                        fold_left
                          (fun result '(to, value) =>
                             Dict.setitem to
                               (Dict.setitem from_ (inverter value)
                                  (Dict.get_or to [] result))
                               result)
                          entry result)
                     d r))).
  { induction d as [|[from_ entry] d IH]; intros r Hr; [exact Hr|].
    cbn [fold_left]. apply IH. apply Hrow. exact Hr. }
  apply H. constructor.
Qed.

(** The keys of the transpose are the inner keys of the dict. *)
Lemma In_keys_inverted (d : Dict.t (Dict.t A)) b :
  Dict.wf2 d ->
  In b (Dict.keys (inverted d inverter)) <-> exists a x, Dict.get2 a b d = Some x.
Proof.
  intros Hwf. split.
  - intros Hb. apply In_keys_get in Hb as [row Hrow].
    pose proof (get_In_values _ _ _ Hrow) as Hin.
    pose proof (proj1 (Forall_forall _ _) (inverted_rows_nonempty d) row Hin) as Hne.
    destruct row as [|[a y] row]; [contradiction|].
    assert (E : Dict.get2 b a (inverted d inverter) = Some y).
    { unfold Dict.get2. rewrite Hrow. simpl. rewrite String.eqb_refl. reflexivity. }
    rewrite (get2_inverted inverter d a b Hwf) in E.
    destruct (Dict.get2 a b d) as [x|] eqn:Ex; [|discriminate].
    exists a, x. exact Ex.
  - intros (a & x & Hx).
    pose proof (get2_inverted inverter d a b Hwf) as E. rewrite Hx in E.
    unfold Dict.get2 in E.
    destruct (Dict.get b (inverted d inverter)) eqn:Eb; [|discriminate].
    eapply get_In_keys. exact Eb.
Qed.

End InvertedKeys.

(** What [Ticker.inverted] returns on a constructed graph. *)
Lemma inverted_run (g : Ticker.t) :
  constructed g ->
  normal2 (inverted g and_reciprocal)
  /\ Ticker.inverted g
     = Ok (Ticker._add_self_prices (inverted g and_reciprocal)).
Proof.
  intros Hg.
  pose proof (normal2_inverted and_reciprocal g (constructed_normal2 g Hg)) as Hn.
  split; [exact Hn|]. unfold Ticker.inverted. apply init_normal2. exact Hn.
Qed.

(** X11.  In a constructed Price Graph, the sell prices of a currency
    into which at least one edge points (every source is one, by its
    self-edge) are returned: 1.0 for the currency itself and, for any
    other currency [x], the price [p and 1 / p] of the edge [x -> c] when
    the graph has it, nothing otherwise.  For a currency into which no
    edge points, [sell_prices] raises [KeyError]. *)
Theorem sell_prices_are_inverted_buy_prices (g : Ticker.t) (c : string) :
  constructed g ->
  ((exists a p, Dict.get2 a c g = Some p) ->
   exists row,
     MarketAPI.sell_prices c g = Ok row
     /\ Dict.get c row = Some 1%float
     /\ forall x, x <> c ->
          Dict.get x row = option_map and_reciprocal (Dict.get2 x c g))
  /\ (In c (Dict.keys g) -> exists a p, Dict.get2 a c g = Some p)
  /\ ((forall a, Dict.get2 a c g = None) ->
      MarketAPI.sell_prices c g = Raise (KeyError c)).
Proof.
  intros Hg. destruct (inverted_run g Hg) as [Hn Hrun].
  pose proof (normal2_wf2 g (constructed_normal2 g Hg)) as Hwf.
  assert (Hrow : Dict.get c (Ticker._add_self_prices (inverted g and_reciprocal))
                 = option_map (Dict.setitem c 1%float)
                     (Dict.get c (inverted g and_reciprocal))).
  { apply get_add_self_prices. exact (proj1 (proj1 Hn)). }
  unfold MarketAPI.sell_prices. rewrite Hrun. cbn [bind]. unfold Ticker.prices.
  rewrite Hrow. split; [|split].
  - intros Hedge. apply (In_keys_inverted and_reciprocal g c Hwf) in Hedge.
    apply In_keys_get in Hedge as [row0 Hrow0]. rewrite Hrow0. simpl.
    eexists. split; [reflexivity|]. split; [apply get_setitem_same|].
    intros x Hne. rewrite get_setitem_other by (intros E; apply Hne; symmetry; exact E).
    pose proof (get2_inverted and_reciprocal g x c Hwf) as E.
    unfold Dict.get2 at 1 in E. rewrite Hrow0 in E. exact E.
  - intros Hc. exists c, 1%float. apply constructed_self_edge; assumption.
  - intros Hnone.
    destruct (Dict.get c (inverted g and_reciprocal)) as [row0|] eqn:Hrow0; [|reflexivity].
    exfalso. apply get_In_keys in Hrow0.
    apply (In_keys_inverted and_reciprocal g c Hwf) in Hrow0 as (a & p & Hp).
    rewrite Hnone in Hp. discriminate.
Qed.

Lemma sell_prices_are_inverted_buy_prices_witness :
  exists row,
    MarketAPI.sell_prices "USDT"
      [("BTC", [("USDT", 8192%float); ("BTC", 1%float)])] = Ok row
    /\ Dict.get "BTC" row = Some 0.0001220703125%float.
Proof.
  assert (Hg : constructed [("BTC", [("USDT", 8192%float); ("BTC", 1%float)])]).
  { exists [("btc", [("usdt", 8192%float)])]. vm_compute. reflexivity. }
  destruct (sell_prices_are_inverted_buy_prices _ "USDT" Hg) as (Hok & _ & _).
  destruct Hok as (row & Hrun & _ & Hother).
  - exists "BTC", 8192%float. vm_compute. reflexivity.
  - exists row. split; [exact Hrun|].
    rewrite Hother by discriminate. vm_compute. reflexivity.
Defined.

(** X12.  The buy cost of a balance in a target currency is the balance
    multiplied, currency by currency, by the row of the target: a
    currency of the balance that the row does not price costs
    [amount * 0], a currency that only the row holds costs 0, and when the
    target is no source of the graph the [KeyError] of [prices] is what
    [buy_cost] raises. *)
Theorem buy_cost_multiplies_by_row
    (balance : Balance.t) (target : string) (g : Ticker.t) :
  Dict.wf balance ->
  match Dict.get target g with
  | Some row =>
      exists r,
        MarketAPI.buy_cost balance target g = Ok r
        /\ (forall k,
              In k (Dict.keys r) <-> In k (Dict.keys balance) \/ In k (Dict.keys row))
        /\ (forall k x,
              Dict.get k balance = Some x ->
              Dict.get k r = Some (x * Counter.getitem row k)%float)
        /\ (forall k,
              Dict.get k balance = None -> In k (Dict.keys row) ->
              Dict.get k r = Some 0%float)
  | None => MarketAPI.buy_cost balance target g = Raise (KeyError target)
  end.
Proof.
  intros Hwf. unfold MarketAPI.buy_cost, MarketAPI.buy_prices, Ticker.prices.
  destruct (Dict.get target g) as [row|]; cbn [bind]; [|reflexivity].
  destruct (mul_counter balance row Hwf) as (r & Hr & _ & Hget).
  exists r. split; [exact Hr|]. split; [|split].
  - intros k. rewrite (In_keys_iff_get r), Hget.
    destruct (Dict.get k balance) as [x|] eqn:E.
    + split; [intros _; left; eapply get_In_keys; exact E | discriminate].
    + apply get_None_iff in E.
      destruct (in_dec string_dec k (Dict.keys row)); split; try tauto; discriminate.
  - intros k x E. rewrite Hget, E. reflexivity.
  - intros k E Hk. rewrite Hget, E.
    destruct (in_dec string_dec k (Dict.keys row)); [reflexivity | contradiction].
Qed.

Lemma buy_cost_multiplies_by_row_witness :
  exists r,
    MarketAPI.buy_cost [("USDT", 3%float); ("XMR", 2%float)] "BTC"
      [("BTC", [("USDT", 8192%float); ("BTC", 1%float)])] = Ok r
    /\ Dict.get "USDT" r = Some 24576%float
    /\ Dict.get "BTC" r = Some 0%float.
Proof.
  assert (Hwf : Dict.wf [("USDT", 3%float); ("XMR", 2%float)]).
  { unfold Dict.wf. simpl. repeat constructor; simpl; intuition discriminate. }
  set (g := [("BTC", [("USDT", 8192%float); ("BTC", 1%float)])] : Ticker.t).
  pose proof (buy_cost_multiplies_by_row _ "BTC" g Hwf) as H.
  assert (E : Dict.get "BTC" g = Some [("USDT", 8192%float); ("BTC", 1%float)])
    by reflexivity.
  rewrite E in H. destruct H as (r & Hr & _ & Hleft & Hright).
  exists r. split; [exact Hr|]. split.
  - rewrite (Hleft "USDT" 3%float) by reflexivity. vm_compute. reflexivity.
  - apply Hright; [reflexivity | right; left; reflexivity].
Defined.

(** ** Order views *)

Lemma get_or_nil_iff {V} (r : Dict.t (Dict.t V)) k :
  Forall (fun row => row <> []) (Dict.values r) ->
  Dict.get_or k [] r = [] <-> ~ In k (Dict.keys r).
Proof.
  intros Hrows. rewrite <- get_None_iff.
  unfold Dict.get_or. change (list (string * V)) with (Dict.t V).
  destruct (Dict.get k r) as [row|] eqn:E; [|tauto].
  apply get_In_values in E.
  pose proof (proj1 (Forall_forall _ _) Hrows row E) as Hne.
  split; [intros ->; contradiction | discriminate].
Qed.

(** X13.  [open_buy_orders] raises nothing for an unknown currency: it
    returns the empty dict exactly when no order list of the structure
    stands under the currency as destination (the contrast with [prices],
    which raises). *)
Theorem open_buy_orders_empty_iff
    (open_orders : ExchangeAPI.orders) (to_currency : string) :
  Dict.wf2 open_orders ->
  ExchangeAPI.open_buy_orders to_currency open_orders = []
  <-> forall from_currency, Dict.get2 from_currency to_currency open_orders = None.
Proof.
  intros Hwf.
  pose proof (get_or_nil_iff
                (inverted open_orders (map ExchangeAPI.invert_order)) to_currency
                (inverted_rows_nonempty _ open_orders)) as Hnil.
  pose proof (In_keys_inverted (map ExchangeAPI.invert_order) open_orders
                to_currency Hwf) as Hkeys.
  split.
  - intros H a. destruct (Dict.get2 a to_currency open_orders) eqn:E; [|reflexivity].
    exfalso. apply (proj1 Hnil H). apply Hkeys. eauto.
  - intros H. apply (proj2 Hnil). intros Hin.
    apply Hkeys in Hin as (a & x & Hx). rewrite H in Hx. discriminate.
Qed.

Lemma open_buy_orders_empty_iff_witness :
  ExchangeAPI.open_buy_orders "ETH"
    [("BTC",
      [("USDT",
        [ {| ExchangeAPI.order_id := "42";
             ExchangeAPI.amount := 3%float;
             ExchangeAPI.price := 8192%float |} ])])]
  = [].
Proof.
  apply open_buy_orders_empty_iff.
  - split; [|repeat constructor; simpl; tauto].
    unfold Dict.wf. simpl. repeat constructor. simpl. tauto.
  - intros a. etransitivity; [apply get2_cons|].
    destruct ("BTC" =? a); reflexivity.
Defined.

(** X14.  The views of normalised orders are normalised: when
    [open_orders] returns, every row that [open_buy_orders] or
    [open_sell_orders] takes from its result has distinct keys in
    canonical form. *)
Theorem order_views_are_normal
    (raw_data open_orders : ExchangeAPI.orders) (currency : string) :
  ExchangeAPI.open_orders raw_data = Ok open_orders ->
  row_normal (ExchangeAPI.open_buy_orders currency open_orders)
  /\ row_normal (ExchangeAPI.open_sell_orders currency open_orders).
Proof.
  intros H. apply normalize_keys_recursive_ok in H.
  pose proof (normal2_inverted (map ExchangeAPI.invert_order) open_orders H) as Hinv.
  split.
  - unfold ExchangeAPI.open_buy_orders, ExchangeAPI.inverted_orders.
    destruct (get_or_nil_cases (inverted open_orders (map ExchangeAPI.invert_order))
                currency) as [->|Hin]; [apply row_normal_nil|].
    exact (proj1 (Forall_forall _ _) (proj2 Hinv) _ Hin).
  - unfold ExchangeAPI.open_sell_orders.
    destruct (get_or_nil_cases open_orders currency) as [->|Hin];
      [apply row_normal_nil|].
    exact (proj1 (Forall_forall _ _) (proj2 H) _ Hin).
Qed.

Lemma order_views_are_normal_witness :
  row_normal
    (ExchangeAPI.open_buy_orders "USDT"
       [("BTC",
         [("USDT",
           [ {| ExchangeAPI.order_id := "42";
                ExchangeAPI.amount := 3%float;
                ExchangeAPI.price := 8192%float |} ])])]).
Proof.
  assert (Hrun : ExchangeAPI.open_orders
                   [("btc",
                     [("usdt",
                       [ {| ExchangeAPI.order_id := "42";
                            ExchangeAPI.amount := 3%float;
                            ExchangeAPI.price := 8192%float |} ])])]
                 = Ok [("BTC",
                        [("USDT",
                          [ {| ExchangeAPI.order_id := "42";
                               ExchangeAPI.amount := 3%float;
                               ExchangeAPI.price := 8192%float |} ])])])
    by (vm_compute; reflexivity).
  exact (proj1 (order_views_are_normal _ _ "USDT" Hrun)).
Defined.

(** ** When construction and normalisation succeed *)

Lemma traverse_rows_complete {V} (d : Dict.t (Dict.t V)) :
  Forall (fun row => NoDup (map normalized_key (Dict.keys row))) (Dict.values d) ->
  traverse
    (fun '(key, entry) =>
       entry' <- normalize_keys (@None (list V -> V)) entry ;; Ok (key, entry'))
    d
  = Ok (map (fun kv => (fst kv, rekey (snd kv))) d).
Proof.
  induction d as [|[k row] d IH]; cbn [traverse]; [reflexivity|].
  intros H. inversion H as [|? ? Hrow Hrest]; subst.
  rewrite (normalize_keys_None_complete row)
    by (unfold Dict.wf; rewrite keys_rekey; exact Hrow).
  cbn [bind]. rewrite (IH Hrest). reflexivity.
Qed.

Lemma traverse_rows_sound {V} (d : Dict.t (Dict.t V)) : forall d',
  traverse
    (fun '(key, entry) =>
       entry' <- normalize_keys (@None (list V -> V)) entry ;; Ok (key, entry'))
    d = Ok d' ->
  Forall (fun row => NoDup (map normalized_key (Dict.keys row))) (Dict.values d).
Proof.
  induction d as [|[k row] d IH]; intros d'; cbn [traverse]; [constructor|].
  destruct (normalize_keys None row) as [row'|] eqn:Erow; cbn [bind]; [|discriminate].
  destruct (traverse _ d) as [rest|] eqn:Erest; cbn [bind]; [|discriminate].
  intros _. simpl. constructor; [|exact (IH rest eq_refl)].
  apply normalize_keys_None_ok in Erow as [-> Hwf].
  unfold Dict.wf in Hwf. rewrite keys_rekey in Hwf. exact Hwf.
Qed.

(** X15.  A Price Graph is constructed from a raw nested mapping exactly
    when no two sources have the same canonical form and, in every row, no
    two destinations have; otherwise the constructor raises (the
    [ValueError] of the normaliser). *)
Theorem construction_succeeds_iff_no_collision (raw : Ticker.t) :
  (exists g, Ticker.__init__ raw = Ok g)
  <-> NoDup (map normalized_key (Dict.keys raw))
      /\ Forall (fun row => NoDup (map normalized_key (Dict.keys row)))
           (Dict.values raw).
Proof.
  unfold Ticker.__init__, Ticker._normalize_keys, normalize_keys_recursive.
  cbn [option_map]. split.
  - intros [g Hg].
    destruct (traverse _ raw) as [d'|] eqn:Et; cbn [bind] in Hg; [|discriminate].
    destruct (_normalize_keys_impl None d') as [t|] eqn:En; cbn [bind] in Hg;
      [|discriminate].
    split; [|eapply traverse_rows_sound; exact Et].
    apply traverse_rows_ok in Et as [Hk _].
    apply (normalize_keys_None_ok d' t) in En as [-> Hwf].
    unfold Dict.wf in Hwf. rewrite keys_rekey, Hk in Hwf. exact Hwf.
  - intros [Hsrc Hrows]. rewrite (traverse_rows_complete raw Hrows). cbn [bind].
    assert (Hk : Dict.keys (map (fun kv => (fst kv, rekey (snd kv))) raw)
                 = Dict.keys raw).
    { unfold Dict.keys. rewrite map_map. reflexivity. }
    assert (E : Dict.wf (rekey (map (fun kv => (fst kv, rekey (snd kv))) raw)))
      by (unfold Dict.wf; rewrite keys_rekey, Hk; exact Hsrc).
    apply normalize_keys_None_complete in E. unfold normalize_keys in E.
    rewrite E. cbn [bind]. eexists. reflexivity.
Qed.

(** X16.  Normalising the currencies of an Amount Vector without an
    aggregator, when it succeeds, changes no amount and not their order,
    so the total of the vector is the same. *)
Theorem normalize_preserves_total (b r : Balance.t) :
  Balance.normalize None b = Ok r ->
  Dict.values r = Dict.values b /\ Balance.sum r = Balance.sum b.
Proof.
  unfold Balance.normalize. intros H.
  apply normalize_keys_None_ok in H as [-> _].
  unfold Balance.sum. rewrite values_rekey. split; reflexivity.
Qed.

Lemma normalize_preserves_total_witness :
  Balance.sum [("BTC", 1.5%float); ("DASH", 2%float)]
  = Balance.sum [("btc", 1.5%float); ("dsh", 2%float)].
Proof.
  apply (normalize_preserves_total [("btc", 1.5%float); ("dsh", 2%float)]).
  vm_compute. reflexivity.
Defined.

(** ** The open orders of the Yobit adapter *)

Lemma get_or_as_get {V} (r : Dict.t (Dict.t V)) k :
  Dict.get_or k [] r = match Dict.get k r with Some row => row | None => [] end.
Proof. reflexivity. Qed.

Lemma get2_append_order (r : ExchangeAPI.orders) from_ to o f t :
  Dict.get2 f t (YobitAPI.append_order from_ to o r)
  = if (from_ =? f) && (to =? t)
    then Some (match Dict.get2 f t r with Some l => l | None => [] end ++ [o])
    else Dict.get2 f t r.
Proof.
  unfold YobitAPI.append_order.
  destruct (String.eqb_spec from_ f) as [->|Hne]; simpl.
  - unfold Dict.get2 at 1. rewrite get_setitem_same, get_setitem.
    destruct (String.eqb_spec to t) as [->|Hne'].
    + f_equal. f_equal. unfold Dict.get_or at 1.
      rewrite get_get_or. reflexivity.
    + apply get_get_or.
  - unfold Dict.get2. rewrite get_setitem_other by assumption. reflexivity.
Qed.

Lemma get2_orders_loop items : forall acc r f t,
  YobitAPI.orders_loop items acc = inr r ->
  Dict.get2 f t r
  = match Dict.get2 f t acc, stored_under f t items with
    | None, [] => None
    | None, l => Some l
    | Some l0, l => Some (l0 ++ l)
    end.
Proof.
  induction items as [|[id o] items IH]; intros acc r f t; simpl.
  - intros [= <-]. destruct (Dict.get2 f t acc); [rewrite app_nil_r|]; reflexivity.
  - destruct (YobitAPI.place id o) as [e|[[from_ to] stored]]; [discriminate|].
    intros Hrun. rewrite (IH _ _ f t Hrun), get2_append_order.
    destruct ((from_ =? f) && (to =? t)).
    + destruct (Dict.get2 f t acc); [rewrite <- app_assoc|]; reflexivity.
    + reflexivity.
Qed.

Lemma orders_loop_fails items : forall acc id o e,
  In (id, o) items ->
  YobitAPI.place id o = inl e ->
  exists e', YobitAPI.orders_loop items acc = inl e'.
Proof.
  induction items as [|[id0 o0] items IH]; intros acc id o e Hin Hplace; [destruct Hin|].
  simpl. destruct Hin as [[= -> ->]|Hin].
  - rewrite Hplace. eauto.
  - destruct (YobitAPI.place id0 o0) as [e0|[[from_ to] stored]]; [eauto|].
    eapply IH; eauto.
Qed.

Lemma orders_loop_error items : forall acc e,
  YobitAPI.orders_loop items acc = inl e ->
  exists id o, In (id, o) items /\ YobitAPI.place id o = inl e.
Proof.
  induction items as [|[id0 o0] items IH]; intros acc e; simpl; [discriminate|].
  destruct (YobitAPI.place id0 o0) as [e0|[[from_ to] stored]] eqn:E0.
  - intros [= <-]. exists id0, o0. split; [left; reflexivity | exact E0].
  - intros Hrun. apply IH in Hrun as (id & o & Hin & Hplace).
    exists id, o. split; [right; exact Hin | exact Hplace].
Qed.

(** An order whose pair has the form [x_y] can only fail by a division
    by zero. *)
Lemma place_error_well_formed id o x y e :
  YobitAPI.split "_" (YobitAPI.pair o) = [x; y] ->
  YobitAPI.place id o = inl e ->
  e = YobitAPI.ZeroDivisionError.
Proof.
  unfold YobitAPI.place, YobitAPI.truediv. intros ->.
  destruct (YobitAPI.type o =? "buy"); [discriminate|].
  destruct (YobitAPI.rate o =? 0)%float; [intros [= <-]; reflexivity|].
  destruct (1 / YobitAPI.rate o =? 0)%float; [intros [= <-]; reflexivity|].
  discriminate.
Qed.

(** X17.  When every pair of the response has the form [x_y], a sell
    order with rate zero in the response makes [_get_open_orders_data]
    raise [ZeroDivisionError] (at [1 / price]): the call returns no order
    structure at all, not the orders read before it. *)
Theorem yobit_sell_at_zero_rate_raises
    (response : Dict.t YobitAPI.active_order) (order_id : string)
    (o : YobitAPI.active_order) :
  Forall
    (fun item => exists x y, YobitAPI.split "_" (YobitAPI.pair (snd item)) = [x; y])
    response ->
  In (order_id, o) response ->
  (YobitAPI.type o =? "buy") = false ->
  (YobitAPI.rate o =? 0)%float = true ->
  YobitAPI._get_open_orders_data response = inl YobitAPI.ZeroDivisionError.
Proof.
  intros Hpairs Hin Hsell Hzero.
  assert (Hplace : exists e, YobitAPI.place order_id o = inl e).
  { unfold YobitAPI.place, YobitAPI.truediv.
    destruct (YobitAPI.split "_" (YobitAPI.pair o)) as [|f [|t [|x rest]]]; eauto.
    rewrite Hsell, Hzero. eauto. }
  destruct Hplace as [e He].
  destruct (orders_loop_fails response [] order_id o e Hin He) as [e' Hrun].
  unfold YobitAPI._get_open_orders_data. rewrite Hrun. f_equal.
  apply orders_loop_error in Hrun as (id1 & o1 & Hin1 & Hplace1).
  destruct (proj1 (Forall_forall _ _) Hpairs (id1, o1) Hin1) as (x & y & Hsplit).
  exact (place_error_well_formed id1 o1 x y e' Hsplit Hplace1).
Qed.

Lemma yobit_sell_at_zero_rate_raises_witness :
  YobitAPI._get_open_orders_data
    [("1", {| YobitAPI.pair := "ltc_btc"; YobitAPI.type := "buy";
              YobitAPI.rate := 0.5%float; YobitAPI.amount := 2%float |});
     ("2", {| YobitAPI.pair := "ltc_btc"; YobitAPI.type := "sell";
              YobitAPI.rate := 0%float; YobitAPI.amount := 2%float |})]
  = inl YobitAPI.ZeroDivisionError.
Proof.
  apply (yobit_sell_at_zero_rate_raises _ "2"
           {| YobitAPI.pair := "ltc_btc"; YobitAPI.type := "sell";
              YobitAPI.rate := 0%float; YobitAPI.amount := 2%float |}).
  - repeat constructor; exists "ltc", "btc"; vm_compute; reflexivity.
  - right. left. reflexivity.
  - vm_compute. reflexivity.
  - vm_compute. reflexivity.
Defined.

(** X18.  When [_get_open_orders_data] returns, the structure holds under
    every [from_ -> to] the orders of the response that belong there, in
    the order of the response, and no entry for a pair without orders:
    a buy order of the pair [x_y] is stored under [y -> x] with its rate
    and amount, a sell order under [x -> y] with price [1 / rate] and
    amount [amount / price]. *)
Theorem yobit_orders_grouped
    (response : Dict.t YobitAPI.active_order) (r : ExchangeAPI.orders) :
  YobitAPI._get_open_orders_data response = inr r ->
  (forall f t,
     Dict.get2 f t r
     = match stored_under f t response with
       | [] => None
       | l => Some l
       end)
  /\ (forall order_id o x y,
        In (order_id, o) response ->
        YobitAPI.split "_" (YobitAPI.pair o) = [x; y] ->
        if YobitAPI.type o =? "buy"
        then In {| ExchangeAPI.order_id := order_id;
                   ExchangeAPI.amount := YobitAPI.amount o;
                   ExchangeAPI.price := YobitAPI.rate o |}
                (stored_under y x response)
        else In {| ExchangeAPI.order_id := order_id;
                   ExchangeAPI.amount :=
                     (YobitAPI.amount o / (1 / YobitAPI.rate o))%float;
                   ExchangeAPI.price := (1 / YobitAPI.rate o)%float |}
                (stored_under x y response)).
Proof.
  intros Hrun. split.
  - intros f t. unfold YobitAPI._get_open_orders_data in Hrun.
    rewrite (get2_orders_loop response [] r f t Hrun). reflexivity.
  - intros id o x y Hin Hsplit.
    assert (Hall : forall items acc r0,
               YobitAPI.orders_loop items acc = inr r0 ->
               In (id, o) items ->
               exists p, YobitAPI.place id o = inr p).
    { induction items as [|[id0 o0] items IH]; intros acc r0 Hr Hi; [destruct Hi|].
      simpl in Hr. destruct (YobitAPI.place id0 o0) as [e0|[[f0 t0] s0]] eqn:E0;
        [discriminate|].
      destruct Hi as [[= -> ->]|Hi]; [eauto | eapply IH; eauto]. }
    destruct (Hall _ _ _ Hrun Hin) as [p Hp].
    assert (Hstored : forall items f t s,
               In (id, o) items -> YobitAPI.place id o = inr (f, t, s) ->
               In s (stored_under f t items)).
    { induction items as [|[id0 o0] items IH]; intros f t s Hi Hpl; [destruct Hi|].
      simpl. destruct Hi as [[= -> ->]|Hi].
      - rewrite Hpl, !String.eqb_refl. left. reflexivity.
      - destruct (YobitAPI.place id0 o0) as [e0|[[f0 t0] s0]]; [eauto|].
        destruct ((f0 =? f) && (t0 =? t)); [right|]; eauto. }
    unfold YobitAPI.place, YobitAPI.truediv in Hp. rewrite Hsplit in Hp.
    destruct (YobitAPI.type o =? "buy") eqn:Etype.
    + apply Hstored; [exact Hin|]. unfold YobitAPI.place. rewrite Hsplit, Etype.
      reflexivity.
    + destruct (YobitAPI.rate o =? 0)%float eqn:Er; [destruct p; discriminate|].
      destruct (1 / YobitAPI.rate o =? 0)%float eqn:Ep; [destruct p; discriminate|].
      apply Hstored; [exact Hin|]. unfold YobitAPI.place, YobitAPI.truediv.
      rewrite Hsplit, Etype, Er, Ep. reflexivity.
Qed.

Lemma yobit_orders_grouped_witness :
  exists r,
    YobitAPI._get_open_orders_data
      [("1", {| YobitAPI.pair := "ltc_btc"; YobitAPI.type := "buy";
                YobitAPI.rate := 0.5%float; YobitAPI.amount := 2%float |});
       ("2", {| YobitAPI.pair := "ltc_btc"; YobitAPI.type := "sell";
                YobitAPI.rate := 0.25%float; YobitAPI.amount := 2%float |})]
    = inr r
    /\ Dict.get2 "ltc" "btc" r
       = Some [ {| ExchangeAPI.order_id := "2";
                   ExchangeAPI.amount := 0.5%float;
                   ExchangeAPI.price := 4%float |} ]
    /\ Dict.get2 "btc" "eth" r = None.
Proof.
  eexists. split; [vm_compute; reflexivity|].
  match goal with
  | |- Dict.get2 _ _ ?r = _ /\ _ =>
      destruct (yobit_orders_grouped
                  [("1", {| YobitAPI.pair := "ltc_btc"; YobitAPI.type := "buy";
                            YobitAPI.rate := 0.5%float; YobitAPI.amount := 2%float |});
                   ("2", {| YobitAPI.pair := "ltc_btc"; YobitAPI.type := "sell";
                            YobitAPI.rate := 0.25%float; YobitAPI.amount := 2%float |})]
                  r) as [Hget _]
  end.
  - vm_compute. reflexivity.
  - rewrite !Hget. split; vm_compute; reflexivity.
Defined.
